(** * Sentinel microstructure monitor: the scoring engine, embedded and verified

    A shallow embedding of [services/CircularBuffer.ts] and
    [services/AnalyticsEngine.ts] (with the records of [types.ts]), followed by
    the properties of the engine's specification.

    Conventions of the embedding.
    - A JavaScript [number] is a real number ([R]): arithmetic is exact, so the
      rounding and the overflow of binary64 are outside the model.  Lengths,
      indices and counters that the code only ever fills with array lengths
      are [nat].
    - Division never raises in JavaScript, it yields a non-finite value when
      the denominator is zero.  The model makes that event visible: every
      division of the source is a [divide], which faults with
      [DivisionByZero] on a zero denominator.  The same [result] monad carries
      the [TypeError] of [reduce] on an empty array and of a property read on
      [undefined].
    - [Date.now()], [Math.random()], [Number.prototype.toFixed] and the
      conversion of a number to a string belong to the runtime: they are
      inputs of the model ([Env] per tick, section variables for the two
      formatters).
    - Mutable fields of a class become a record that every method takes and
      returns. *)

From Stdlib Require Import Reals Lra Lia String ZArith.
From stdpp Require Import base decidable option list strings pretty.

Open Scope string_scope.
Open Scope list_scope.
Open Scope R_scope.

(** ** JavaScript numbers *)

Abbreviation number := R (only parsing).

#[global] Instance Rlt_decision (x y : R) : Decision (x < y) := Rlt_dec x y.
#[global] Instance Rle_decision (x y : R) : Decision (x <= y) := Rle_dec x y.
#[global] Instance Rgt_decision (x y : R) : Decision (x > y) := Rgt_dec x y.
#[global] Instance Rge_decision (x y : R) : Decision (x >= y) := Rge_dec x y.
#[global] Instance Req_decision : EqDecision R := Req_dec_T.

(** [Math.floor] and [Math.round]: the latter rounds to the nearest integer,
    a tie going up. *)
Definition js_floor (x : number) : number := IZR (Int_part x).
Definition js_round (x : number) : number := IZR (Int_part (x + / 2)).

(** [x || d] on numbers: [0] is the only falsy real. *)
Definition js_or (x d : number) : number := if decide (x = 0) then d else x.

(** ** Faults *)

Inductive fault := DivisionByZero | TypeError.

Inductive result (A : Type) :=
| Ok (a : A)
| Fault (f : fault).
Arguments Ok {A} a.
Arguments Fault {A} f.

#[global] Instance result_ret : MRet result := λ A a, Ok a.
#[global] Instance result_bind : MBind result := λ A B f m,
  match m with Ok a => f a | Fault e => Fault e end.

(** [x / y] as the source writes it, observed. *)
Definition divide (x y : number) : result number :=
  if decide (y = 0) then Fault DivisionByZero else Ok (x / y).

(** [xs.map(f)] for an [f] that may fault: left to right, first fault wins. *)
Fixpoint mapR {A B : Type} (f : A → result B) (l : list A) : result (list B) :=
  match l with
  | [] => Ok []
  | a :: l' => b ← f a; bs ← mapR f l'; mret (b :: bs)
  end.

Definition sumR (l : list number) : number := foldl Rplus 0 l.

(** ** CircularBuffer.ts *)

Section CircularBuffer.
Context {T : Type}.

(** [head] is a JavaScript number: [None] stands for [NaN], which the
    cursor becomes through [(head + 1) % 0].  [maxSize] is the constructor's
    argument, taken to be a natural number. *)
Record CircularBuffer := mkBuffer {
  buffer : list T;
  maxSize : nat;
  head : option nat
}.

Definition newBuffer (n : nat) : CircularBuffer :=
  {| buffer := []; maxSize := n; head := Some 0%nat |}.

(** [a[i] = v].  Inside the array the slot is replaced; at [i = length] the
    array grows by one.  Beyond the length JavaScript would leave holes,
    which a [list T] cannot hold: the buffer never stores there
    ([head_le_length]), and the model appends as well. *)
Definition array_store (a : list T) (i : nat) (v : T) : list T :=
  if decide (i < length a)%nat then <[i := v]> a else a ++ [v].

(** [a % b] on cursors. *)
Definition js_mod (a b : nat) : option nat :=
  if decide (b = 0%nat) then None else Some (a mod b)%nat.

(** A store at [NaN] sets the property of that name and leaves the elements
    and the length alone; [NaN + 1] stays [NaN]. *)
Definition push (b : CircularBuffer) (item : T) : CircularBuffer :=
  if decide (length (buffer b) < maxSize b)%nat then
    {| buffer := buffer b ++ [item]; maxSize := maxSize b; head := head b |}
  else
    match head b with
    | Some h =>
        {| buffer := array_store (buffer b) h item;
           maxSize := maxSize b;
           head := js_mod (h + 1) (maxSize b) |}
    | None => b
    end.

Definition size (b : CircularBuffer) : nat := length (buffer b).

(** The loop of [getAll] reads [buffer[(head + i) % size]] for
    [i = 0 .. size-1].  With a numeric cursor every such index is inside
    the array.  With a [NaN] cursor, which only a window of capacity 0 has,
    the loop reads the property named NaN instead of an element: what it
    collects then has no counterpart in a [list T], and the model returns
    the empty list. *)
Definition getAll (b : CircularBuffer) : list T :=
  match head b with
  | Some h =>
      omap (λ i, buffer b !! ((h + i) mod size b)%nat) (seq 0 (size b))
  | None => []
  end.

(** [getLast(n)]: the index [(head - 1 - i + size) % size] is written with
    the additions first, all its intermediate values being naturals for
    [i < n < size]. *)
Definition getLast (b : CircularBuffer) (n : nat) : list T :=
  if decide (size b ≤ n)%nat then buffer b
  else match head b with
       | Some h =>
           rev (omap (λ i, buffer b !! ((h + size b - 1 - i) mod size b)%nat)
                     (seq 0 n))
       | None => []
       end.

Definition clear (b : CircularBuffer) : CircularBuffer :=
  {| buffer := []; maxSize := maxSize b; head := Some 0%nat |}.

(** [typeof val === 'number' ? val : 0] *)
Variable as_number : T → option number.
Definition numeric (val : T) : number := default 0 (as_number val).

Definition mean (b : CircularBuffer) : result number :=
  if decide (length (buffer b) = 0%nat) then Ok 0
  else divide (foldl (λ acc val, acc + numeric val) 0 (buffer b))
              (INR (length (buffer b))).

Definition standardDeviation (b : CircularBuffer) : result number :=
  let size := length (buffer b) in
  if decide (size < 2)%nat then Ok 0
  else
    m ← mean b;
    let squaredDiffs :=
      foldl (λ acc val, acc + (numeric val - m) ^ 2) 0 (buffer b) in
    q ← divide squaredDiffs (INR size);
    mret (sqrt q).

Definition pushes (b : CircularBuffer) (items : list T) : CircularBuffer :=
  foldl push b items.
End CircularBuffer.
Arguments CircularBuffer T : clear implicits.

(** ** types.ts *)

Inductive StressLevel := STABLE | ELEVATED | STRESSED | UNSTABLE | CRITICAL.
Inductive ConfidenceLevel := LOW | MEDIUM | HIGH.
Inductive SignalType := LIQUIDITY | FLOW | VOLATILITY | FORCED_SELLING.
Inductive Side := buy | sell.
Inductive DataQuality := GOOD | DEGRADED | STALE.
Inductive StepType := CATALYST | AMPLIFIER | SYSTEMIC.

#[global] Instance StressLevel_eq_dec : EqDecision StressLevel.
Proof. solve_decision. Defined.
#[global] Instance ConfidenceLevel_eq_dec : EqDecision ConfidenceLevel.
Proof. solve_decision. Defined.
#[global] Instance SignalType_eq_dec : EqDecision SignalType.
Proof. solve_decision. Defined.
#[global] Instance Side_eq_dec : EqDecision Side.
Proof. solve_decision. Defined.
#[global] Instance StepType_eq_dec : EqDecision StepType.
Proof. solve_decision. Defined.

(** The string values of the enums. *)
Definition levelName (l : StressLevel) : string :=
  match l with
  | STABLE => "STABLE" | ELEVATED => "ELEVATED" | STRESSED => "STRESSED"
  | UNSTABLE => "UNSTABLE" | CRITICAL => "CRITICAL"
  end.

Definition confidenceName (c : ConfidenceLevel) : string :=
  match c with LOW => "LOW" | MEDIUM => "MEDIUM" | HIGH => "HIGH" end.

Definition signalName (s : SignalType) : string :=
  match s with
  | LIQUIDITY => "Liquidity Fragility"
  | FLOW => "Order Flow Imbalance"
  | VOLATILITY => "Volatility Regime Shift"
  | FORCED_SELLING => "Forced Selling"
  end.

(** A value of [Record<string, number | string>]. *)
Inductive Metric := MNumber (n : number) | MString (s : string).

Module Trade.
Record t := mk {
  id : number;
  price : number;
  quantity : number;
  timestamp : number;
  side : Side
}.
End Trade.

Module Trades.
Record t := mk {
  buy_volume : number;
  sell_volume : number;
  buy_count : number;
  sell_count : number;
  large_trades : list Trade.t
}.
End Trades.

Module Tick.
(** [NormalizedMarketTick] *)
Record t := mk {
  exchange_timestamp : number;
  received_timestamp : number;
  processing_timestamp : number;
  price : number;
  volume_24h : number;
  bids : list (number * number);
  asks : list (number * number);
  trades : Trades.t;
  mid_price : number;
  spread : number;
  spread_bps : number;
  total_depth : number;
  is_valid : bool;
  data_quality : DataQuality
}.
End Tick.

Module SignalOutput.
Record t := mk {
  name : SignalType;
  value : number;
  severity : StressLevel;
  triggered : bool;
  raw_metrics : list (string * Metric);
  explanation : string;
  confidence : ConfidenceLevel;
  timestamp : number
}.
End SignalOutput.

Module Breakdown.
Record t := mk {
  liquidity : number;
  flow : number;
  volatility : number;
  forcedSelling : number
}.
End Breakdown.

Module StressScore.
Record t := mk {
  score : number;
  raw_score : number;
  level : StressLevel;
  color : string;
  signals_aligned : nat;
  confidence : ConfidenceLevel;
  breakdown : Breakdown.t;
  timestamp : number
}.
End StressScore.

Module CausalStep.
Record t := mk {
  sequence_id : nat;
  type : StepType;
  signal : SignalType;
  description : string;
  severity : StressLevel;
  timestamp : number
}.
End CausalStep.

Module CausalSequence.
Record t := mk {
  active : bool;
  steps : list CausalStep.t;
  catalyst_id : option SignalType;
  narrative : string;
  risk_assessment : string
}.
End CausalSequence.

Module CriticalEvent.
Record t := mk {
  id : string;
  timestamp : number;
  price : number;
  stress_score : number;
  level : StressLevel;
  primary_factor : string;
  narrative : string;
  signals : list SignalType
}.
End CriticalEvent.

Module WeightContribution.
Record t := mk {
  signal : SignalType;
  weight : number;
  raw_value : number;
  contribution : number;
  pct_of_total : number
}.
End WeightContribution.

Module DecisionTrace.
Record t := mk {
  weight_contributions : list WeightContribution.t;
  raw_score : number;
  signals_aligned : nat;
  shock_multiplier : number;
  pre_smooth_score : number;
  smoothing_alpha : number;
  previous_score : number;
  final_score : number;
  confidence_reasons : list (SignalType * string);
  audit_narrative : string;
  timestamp : number
}.
End DecisionTrace.

(** [Record<SignalType, SignalOutput>], as [processTick] builds it.
    [Object.values] lists it in the order the keys were written. *)
Module Signals.
Record t := mk {
  liquidity : SignalOutput.t;
  flow : SignalOutput.t;
  volatility : SignalOutput.t;
  forcedSelling : SignalOutput.t
}.
Definition get (s : t) (k : SignalType) : SignalOutput.t :=
  match k with
  | LIQUIDITY => liquidity s
  | FLOW => flow s
  | VOLATILITY => volatility s
  | FORCED_SELLING => forcedSelling s
  end.
Definition values (s : t) : list SignalOutput.t :=
  [liquidity s; flow s; volatility s; forcedSelling s].
End Signals.

(** An entry of [triggerOrder]. *)
Module Trigger.
Record t := mk {
  signal : SignalType;
  timestamp : number;
  initialValue : number
}.
End Trigger.

(** What one call of [processTick] reads from the runtime: [now k] is the
    value of the k-th call of [Date.now()], [random] that of
    [Math.random()]. *)
Module Env.
Record t := mk {
  now : nat → number;
  random : number
}.
End Env.

(** The bundle [processTick] returns. *)
Module Output.
Record t := mk {
  signals : Signals.t;
  stress : StressScore.t;
  causal : CausalSequence.t;
  criticalEvent : option CriticalEvent.t;
  trace : DecisionTrace.t
}.
End Output.

(** ** AnalyticsEngine.ts *)

(** The fields of the class. *)
Module AnalyticsEngine.
Record t := mk {
  liquidityBuffer : CircularBuffer number;
  priceBuffer : CircularBuffer number;
  volBuffer : CircularBuffer number;
  previousStress : number;
  previousLevel : StressLevel;
  previousSignalsAligned : nat;
  lastTrace : option DecisionTrace.t;
  triggerOrder : list Trigger.t
}.

Definition set_liquidityBuffer (b : CircularBuffer number) (e : t) : t :=
  mk b (priceBuffer e) (volBuffer e) (previousStress e) (previousLevel e)
     (previousSignalsAligned e) (lastTrace e) (triggerOrder e).
Definition set_priceBuffer (b : CircularBuffer number) (e : t) : t :=
  mk (liquidityBuffer e) b (volBuffer e) (previousStress e) (previousLevel e)
     (previousSignalsAligned e) (lastTrace e) (triggerOrder e).
Definition set_stress (s : number) (tr : DecisionTrace.t) (e : t) : t :=
  mk (liquidityBuffer e) (priceBuffer e) (volBuffer e) s (previousLevel e)
     (previousSignalsAligned e) (Some tr) (triggerOrder e).
Definition set_triggerOrder (o : list Trigger.t) (e : t) : t :=
  mk (liquidityBuffer e) (priceBuffer e) (volBuffer e) (previousStress e)
     (previousLevel e) (previousSignalsAligned e) (lastTrace e) o.
Definition set_previous (l : StressLevel) (n : nat) (e : t) : t :=
  mk (liquidityBuffer e) (priceBuffer e) (volBuffer e) (previousStress e)
     l n (lastTrace e) (triggerOrder e).
End AnalyticsEngine.
Import AnalyticsEngine (liquidityBuffer, priceBuffer, volBuffer, previousStress,
  previousLevel, previousSignalsAligned, lastTrace, triggerOrder).

(** The field initialisers of the class. *)
Definition newEngine : AnalyticsEngine.t :=
  {| liquidityBuffer := newBuffer 300;
     priceBuffer := newBuffer 300;
     volBuffer := newBuffer 60;
     previousStress := 0;
     previousLevel := STABLE;
     previousSignalsAligned := 0;
     lastTrace := None;
     triggerOrder := [] |}.

Definition weights (s : SignalType) : number :=
  match s with
  | LIQUIDITY => 0.35
  | FLOW => 0.25
  | VOLATILITY => 0.25
  | FORCED_SELLING => 0.15
  end.

Definition reset (e : AnalyticsEngine.t) : AnalyticsEngine.t :=
  {| liquidityBuffer := clear (liquidityBuffer e);
     priceBuffer := clear (priceBuffer e);
     volBuffer := clear (volBuffer e);
     previousStress := 0;
     previousLevel := STABLE;
     previousSignalsAligned := 0;
     triggerOrder := [];
     lastTrace := None |}.

Definition getLastTrace (e : AnalyticsEngine.t) : option DecisionTrace.t :=
  lastTrace e.

Definition determineConfidence (value highThreshold medThreshold : number)
  : ConfidenceLevel :=
  if decide (value >= highThreshold) then HIGH
  else if decide (value >= medThreshold) then MEDIUM
  else LOW.

(** The [default] branch of the switch cannot be reached from a
    [StressLevel]. *)
Definition getStressRank (level : StressLevel) : nat :=
  match level with
  | STABLE => 0 | ELEVATED => 1 | STRESSED => 2 | UNSTABLE => 3 | CRITICAL => 4
  end.

Definition getSeverity (risk : number) : StressLevel :=
  if decide (risk < 30) then STABLE
  else if decide (risk < 50) then ELEVATED
  else if decide (risk < 75) then STRESSED
  else CRITICAL.

Definition classifyLevel (score : number) : StressLevel :=
  if decide (score < 25) then STABLE
  else if decide (score < 50) then ELEVATED
  else if decide (score < 75) then STRESSED
  else if decide (score < 90) then UNSTABLE
  else CRITICAL.

Definition defaultSignal (name : SignalType) (ts : number) : SignalOutput.t :=
  {| SignalOutput.name := name;
     SignalOutput.value := 0;
     SignalOutput.severity := STABLE;
     SignalOutput.triggered := false;
     SignalOutput.raw_metrics := [];
     SignalOutput.explanation := "Insufficient data.";
     SignalOutput.confidence := LOW;
     SignalOutput.timestamp := ts |}.

(** [THEME.stress] of constants.tsx *)
Definition THEME_stress (l : StressLevel) : string :=
  match l with
  | STABLE => "#10b981"
  | ELEVATED => "#eab308"
  | STRESSED => "#f97316"
  | UNSTABLE => "#ef4444"
  | CRITICAL => "#dc2626"
  end.

(** [arr.reduce(f)] without an initial value raises on an empty array. *)
Definition reduce1 {A : Type} (f : A → A → A) (arr : list A) : result A :=
  match arr with
  | [] => Fault TypeError
  | a :: rest => Ok (foldl f a rest)
  end.

(** The closure [getStd] of [processVolatility].  The argument of
    [Math.sqrt] is a mean of squares, never negative. *)
Definition getStd (arr : list number) : result number :=
  total ← reduce1 Rplus arr;
  mean ← divide total (INR (length arr));
  v ← divide (foldl (λ a b, a + (b - mean) ^ 2) 0 arr) (INR (length arr));
  mret (sqrt v).

(** [arr.slice(-n)] *)
Definition slice_last {A : Type} (n : nat) (arr : list A) : list A :=
  drop (length arr - n) arr.

(** [arr.sort(cmp)]: stable, an element moves behind another only when the
    comparator is positive on them. *)
Fixpoint sort_insert {A : Type} (cmp : A → A → number) (x : A) (l : list A)
  : list A :=
  match l with
  | [] => [x]
  | y :: l' => if decide (cmp x y > 0) then y :: sort_insert cmp x l'
               else x :: y :: l'
  end.
Definition js_sort {A : Type} (cmp : A → A → number) (l : list A) : list A :=
  foldr (sort_insert cmp) [] l.

(** The locals [depthChange] and [risk] of [processLiquidity]. *)
Definition liquidity_depthChange (total_depth baseline : number)
  : result number :=
  if decide (baseline = 0) then mret 0
  else q ← divide (total_depth - baseline) baseline; mret (q * 100).

Definition liquidity_risk (depthChange : number) : result number :=
  if decide (depthChange >= 0) then mret 0
  else q ← divide (- depthChange) 40; mret (Rmin 100 (q * 100)).

(** The local [risk] of [processVolatility], from the window contents. *)
Definition volatility_ratio (prices : list number) : result (number * number) :=
  let shortTerm := slice_last 10 prices in
  stdShort ← getStd shortTerm;
  stdLong0 ← getStd prices;
  let stdLong := js_or stdLong0 1 in
  ratio ← divide stdShort stdLong;
  mret (ratio, stdShort).

Definition volatility_risk (ratio : number) : number :=
  Rmin 100 (Rmax 0 ((ratio - 1) * 50)).

(** The locals of [processForcedSelling]. *)
Definition largeSells (tick : Tick.t) : list Trade.t :=
  filter (λ t, Trade.side t = sell) (Trades.large_trades (Tick.trades tick)).
Definition totalLargeVol (tick : Tick.t) : number :=
  foldl (λ s t, s + Trade.quantity t) 0 (largeSells tick).

Section Engine.
(** [x.toFixed(digits)] and the string of a number in a template. *)
Variable toFixed : number → nat → string.
Variable show : number → string.

Definition processLiquidity (e : AnalyticsEngine.t) (tick : Tick.t)
  : result (SignalOutput.t * AnalyticsEngine.t) :=
  let buf := push (liquidityBuffer e) (Tick.total_depth tick) in
  let e := AnalyticsEngine.set_liquidityBuffer buf e in
  baseline ← mean Some buf;
  depthChange ← liquidity_depthChange (Tick.total_depth tick) baseline;
  risk ← liquidity_risk depthChange;
  let confidence := determineConfidence (INR (size buf)) 60 20 in
  mret
    ({| SignalOutput.name := LIQUIDITY;
        SignalOutput.value := js_round risk;
        SignalOutput.severity := getSeverity risk;
        SignalOutput.triggered := bool_decide (risk > 60);
        SignalOutput.raw_metrics :=
          [("Depth", MString (toFixed (Tick.total_depth tick) 1));
           ("Δ Mean", MString (toFixed depthChange 1 +:+ "%"))];
        SignalOutput.explanation :=
          if decide (risk > 60)
          then "Liquidity hole: " +:+ toFixed (Rabs depthChange) 1
               +:+ "% below baseline."
          else "Depth within stable range.";
        SignalOutput.confidence := confidence;
        SignalOutput.timestamp := Tick.processing_timestamp tick |}, e).

Definition processFlow (tick : Tick.t) : result SignalOutput.t :=
  let tr := Tick.trades tick in
  let totalVol := Trades.buy_volume tr + Trades.sell_volume tr in
  if decide (totalVol = 0)
  then mret (defaultSignal FLOW (Tick.processing_timestamp tick))
  else
    sellRatio ← divide (Trades.sell_volume tr) totalVol;
    let risk := Rmax 0 ((sellRatio - 0.5) * 200) in
    let confidence := determineConfidence totalVol 2.0 0.5 in
    imbalance ← divide sellRatio (js_or (1 - sellRatio) 0.01);
    mret
      {| SignalOutput.name := FLOW;
         SignalOutput.value := js_round risk;
         SignalOutput.severity := getSeverity risk;
         SignalOutput.triggered := bool_decide (risk > 65);
         SignalOutput.raw_metrics :=
           [("Sell %", MString (toFixed (sellRatio * 100) 1 +:+ "%"));
            ("Imbalance", MString (toFixed imbalance 2))];
         SignalOutput.explanation :=
           if decide (risk > 65) then "Aggressive market selling detected."
           else "Transaction flow is balanced.";
         SignalOutput.confidence := confidence;
         SignalOutput.timestamp := Tick.processing_timestamp tick |}.

Definition processVolatility (e : AnalyticsEngine.t) (tick : Tick.t)
  : result (SignalOutput.t * AnalyticsEngine.t) :=
  let buf := push (priceBuffer e) (Tick.price tick) in
  let e := AnalyticsEngine.set_priceBuffer buf e in
  let prices := getAll buf in
  if decide (length prices < 20)%nat
  then mret (defaultSignal VOLATILITY (Tick.processing_timestamp tick), e)
  else
    '(ratio, stdShort) ← volatility_ratio prices;
    let risk := volatility_risk ratio in
    let confidence := determineConfidence (INR (length prices)) 50 30 in
    mret
      ({| SignalOutput.name := VOLATILITY;
          SignalOutput.value := js_round risk;
          SignalOutput.severity := getSeverity risk;
          SignalOutput.triggered := bool_decide (risk > 55);
          SignalOutput.raw_metrics :=
            [("Vol Ratio", MString (toFixed ratio 2));
             ("Price Std", MString (toFixed stdShort 2))];
          SignalOutput.explanation :=
            if decide (risk > 55)
            then "Price instability detected via volatility expansion."
            else "Price volatility within regime bounds.";
          SignalOutput.confidence := confidence;
          SignalOutput.timestamp := Tick.processing_timestamp tick |}, e).

Definition processForcedSelling (tick : Tick.t) : result SignalOutput.t :=
  let tr := Tick.trades tick in
  q ← divide (totalLargeVol tick) 5;
  let risk := Rmin 100 (q * 100) in
  let totalTrades := Trades.buy_count tr + Trades.sell_count tr in
  let confidence := determineConfidence totalTrades 50 10 in
  mret
    {| SignalOutput.name := FORCED_SELLING;
       SignalOutput.value := js_round risk;
       SignalOutput.severity := getSeverity risk;
       SignalOutput.triggered := bool_decide (risk > 45);
       SignalOutput.raw_metrics :=
         [("Whale Vol", MString (toFixed (totalLargeVol tick) 1));
          ("Count", MNumber (INR (length (largeSells tick))))];
       SignalOutput.explanation :=
         if decide (risk > 45)
         then "Large seller active: " +:+ toFixed (totalLargeVol tick) 1
              +:+ " BTC sold in blocks."
         else "No significant whale selling detected.";
       SignalOutput.confidence := confidence;
       SignalOutput.timestamp := Tick.processing_timestamp tick |}.

Definition confidenceValue (s : SignalOutput.t) : number :=
  if decide (SignalOutput.confidence s = HIGH) then 3
  else if decide (SignalOutput.confidence s = MEDIUM) then 2
  else 1.

Definition weightContribution (rawStress : number) (sig : SignalOutput.t)
  : result WeightContribution.t :=
  let weight := weights (SignalOutput.name sig) in
  let contribution := SignalOutput.value sig * weight in
  pct ← (if decide (rawStress > 0)
         then q ← divide contribution rawStress; mret (q * 100)
         else mret 0);
  mret {| WeightContribution.signal := SignalOutput.name sig;
          WeightContribution.weight := weight;
          WeightContribution.raw_value := SignalOutput.value sig;
          WeightContribution.contribution := contribution;
          WeightContribution.pct_of_total := pct |}.

(** The locals of [calculateStressWithTrace] up to the smoothed score. *)
Definition rawStress (signals : Signals.t) : number :=
  SignalOutput.value (Signals.get signals LIQUIDITY) * weights LIQUIDITY +
  SignalOutput.value (Signals.get signals FLOW) * weights FLOW +
  SignalOutput.value (Signals.get signals VOLATILITY) * weights VOLATILITY +
  SignalOutput.value (Signals.get signals FORCED_SELLING)
    * weights FORCED_SELLING.

Definition activeSignals (signals : Signals.t) : nat :=
  length (filter (λ s, SignalOutput.triggered s = true) (Signals.values signals)).

Definition shockMultiplier (signals : Signals.t) : number :=
  1.0 + INR (activeSignals signals) * 0.08.

Definition targetStress (signals : Signals.t) : number :=
  Rmin 100 (rawStress signals * shockMultiplier signals).

Definition smoothingAlpha (targetStress previousStress : number) : number :=
  if decide (targetStress > previousStress) then 0.35 else 0.15.

Definition smoothedStress (signals : Signals.t) (previousStress : number)
  : number :=
  let alpha := smoothingAlpha (targetStress signals) previousStress in
  alpha * targetStress signals + (1 - alpha) * previousStress.

Definition calculateStressWithTrace (e : AnalyticsEngine.t) (env : Env.t)
    (signals : Signals.t) (tick : Tick.t)
  : result (StressScore.t * DecisionTrace.t * AnalyticsEngine.t) :=
  let sigArray := Signals.values signals in
  let rawStress := rawStress signals in
  let activeSignals := activeSignals signals in
  let shockMultiplier := shockMultiplier signals in
  let targetStress := targetStress signals in
  let alpha := smoothingAlpha targetStress (previousStress e) in
  let smoothedStress := smoothedStress signals (previousStress e) in
  let finalScore := js_round smoothedStress in
  let level := classifyLevel smoothedStress in
  let confValues := confidenceValue <$> sigArray in
  avgConf ← divide (foldl Rplus 0 confValues) (INR (length confValues));
  let globalConfidence :=
    if decide (avgConf > 2.5) then HIGH
    else if decide (avgConf > 1.5) then MEDIUM
    else LOW in
  weight_contributions ← mapR (weightContribution rawStress) sigArray;
  let confidence_reasons :=
    [(LIQUIDITY, show (INR (size (liquidityBuffer e)))
                 +:+ " depth samples (need ≥60 for HIGH)");
     (VOLATILITY, show (INR (size (priceBuffer e)))
                  +:+ " price ticks (need ≥50 for HIGH)");
     (FLOW, "Based on volume density — need ≥2.0 BTC/s for HIGH");
     (FORCED_SELLING, "Based on trade frequency — need ≥50 trades for HIGH")] in
  dominant ←
    match js_sort (λ a b, WeightContribution.contribution b
                          - WeightContribution.contribution a)
                  weight_contributions with
    | d :: _ => Ok d
    | [] => Fault TypeError
    end;
  let audit_narrative :=
    "Dominant contributor: " +:+ signalName (WeightContribution.signal dominant)
    +:+ " (" +:+ toFixed (WeightContribution.weight dominant * 100) 0
    +:+ "% weight × " +:+ show (WeightContribution.raw_value dominant)
    +:+ " raw = " +:+ toFixed (WeightContribution.contribution dominant) 1
    +:+ " pts, " +:+ toFixed (WeightContribution.pct_of_total dominant) 1
    +:+ "% of raw score). Raw weighted score: " +:+ toFixed rawStress 1
    +:+ " pts. "
    +:+ (if decide (0 < activeSignals)%nat
         then "Shock multiplier " +:+ toFixed shockMultiplier 2
              +:+ "× applied because " +:+ show (INR activeSignals)
              +:+ " signal(s) triggered simultaneously, elevating score to "
              +:+ toFixed targetStress 1 +:+ ". "
         else "")
    +:+ "Stress is "
    +:+ (if decide (targetStress > previousStress e) then "rising"
         else "falling")
    +:+ ", so adaptive smoothing alpha = " +:+ show alpha +:+ " ("
    +:+ (if decide (alpha = 0.35)
         then "fast-track — system escalates quickly"
         else "slow-decay — system de-escalates conservatively")
    +:+ "). Final score: " +:+ show finalScore +:+ " (" +:+ levelName level
    +:+ "). System confidence: " +:+ confidenceName globalConfidence +:+ "." in
  let trace :=
    {| DecisionTrace.weight_contributions := weight_contributions;
       DecisionTrace.raw_score := rawStress;
       DecisionTrace.signals_aligned := activeSignals;
       DecisionTrace.shock_multiplier := shockMultiplier;
       DecisionTrace.pre_smooth_score := targetStress;
       DecisionTrace.smoothing_alpha := alpha;
       DecisionTrace.previous_score := previousStress e;
       DecisionTrace.final_score := finalScore;
       DecisionTrace.confidence_reasons := confidence_reasons;
       DecisionTrace.audit_narrative := audit_narrative;
       DecisionTrace.timestamp := Env.now env 0 |} in
  let e := AnalyticsEngine.set_stress smoothedStress trace e in
  let stress :=
    {| StressScore.score := finalScore;
       StressScore.raw_score := rawStress;
       StressScore.level := level;
       StressScore.color := THEME_stress level;
       StressScore.signals_aligned := activeSignals;
       StressScore.confidence := globalConfidence;
       StressScore.breakdown :=
         {| Breakdown.liquidity :=
              SignalOutput.value (Signals.get signals LIQUIDITY);
            Breakdown.flow := SignalOutput.value (Signals.get signals FLOW);
            Breakdown.volatility :=
              SignalOutput.value (Signals.get signals VOLATILITY);
            Breakdown.forcedSelling :=
              SignalOutput.value (Signals.get signals FORCED_SELLING) |};
       StressScore.timestamp := Env.now env 1 |} in
  mret (stress, trace, e).

Definition generateNarrative (steps : list CausalStep.t) (stress : StressScore.t)
  : result string :=
  match steps with
  | [] => mret ""
  | first :: rest =>
      let catalyst := signalName (CausalStep.signal first) in
      if decide (length steps = 1%nat)
      then mret ("Event initiated by " +:+ catalyst +:+ ".")
      else
        let systemicCount :=
          length (filter (λ s, CausalStep.type s = SYSTEMIC) steps) in
        if decide (0 < systemicCount)%nat
        then mret ("Systemic breakdown initiated by " +:+ catalyst
                   +:+ ", now exacerbated by "
                   +:+ show (INR (length steps) - 1)
                   +:+ " secondary amplifiers.")
        else
          match steps !! (length steps - 1)%nat with
          | Some final =>
              mret ("Tension detected in " +:+ catalyst
                    +:+ ", causing feedback in "
                    +:+ signalName (CausalStep.signal final) +:+ ".")
          | None => Fault TypeError
          end
  end.

(** The [forEach] of [buildCausalSequence]: [k] counts the calls of
    [Date.now()] made so far by the loop. *)
Definition recordTrigger (clock : nat → number)
    (acc : list Trigger.t * nat) (s : SignalOutput.t) : list Trigger.t * nat :=
  let '(order, k) := acc in
  match list_find (λ t, Trigger.signal t = SignalOutput.name s) order with
  | Some _ => (order, k)
  | None =>
      (order ++ [ {| Trigger.signal := SignalOutput.name s;
                     Trigger.timestamp := clock k;
                     Trigger.initialValue := SignalOutput.value s |} ],
       S k)
  end.

(** [triggerOrder] after the [forEach], and after the [filter] that follows
    it. *)
Definition recordedOrder (clock : nat → number) (old : list Trigger.t)
    (signals : Signals.t) : list Trigger.t :=
  (foldl (recordTrigger clock) (old, 0%nat)
         (filter (λ s, SignalOutput.triggered s = true)
                 (Signals.values signals))).1.

Definition survivingOrder (clock : nat → number) (old : list Trigger.t)
    (signals : Signals.t) : list Trigger.t :=
  filter (λ t, SignalOutput.triggered
                 (Signals.get signals (Trigger.signal t)) = true)
         (recordedOrder clock old signals).

Definition causalStep (stress : StressScore.t) (signals : Signals.t)
    (index : nat) (trigger : Trigger.t) : CausalStep.t :=
  let signalData := Signals.get signals (Trigger.signal trigger) in
  {| CausalStep.sequence_id := index + 1;
     CausalStep.type :=
       if decide (index = 0%nat) then CATALYST
       else if decide (StressScore.score stress > 70) then SYSTEMIC
       else AMPLIFIER;
     CausalStep.signal := Trigger.signal trigger;
     CausalStep.description := SignalOutput.explanation signalData;
     CausalStep.severity := SignalOutput.severity signalData;
     CausalStep.timestamp := Trigger.timestamp trigger |}.

Definition inactiveChain : CausalSequence.t :=
  {| CausalSequence.active := false;
     CausalSequence.steps := [];
     CausalSequence.catalyst_id := None;
     CausalSequence.narrative := "";
     CausalSequence.risk_assessment := "" |}.

Definition buildCausalSequence (e : AnalyticsEngine.t) (clock : nat → number)
    (stress : StressScore.t) (signals : Signals.t)
  : result (CausalSequence.t * AnalyticsEngine.t) :=
  let activeSignalEntries :=
    filter (λ s, SignalOutput.triggered s = true) (Signals.values signals) in
  if decide (length activeSignalEntries = 0%nat)
  then mret (inactiveChain, AnalyticsEngine.set_triggerOrder [] e)
  else
    let order := survivingOrder clock (triggerOrder e) signals in
    let e := AnalyticsEngine.set_triggerOrder order e in
    let steps := imap (causalStep stress signals) order in
    let catalyst := Trigger.signal <$> order !! 0%nat in
    narrative ← generateNarrative steps stress;
    mret
      ({| CausalSequence.active := true;
          CausalSequence.steps := steps;
          CausalSequence.catalyst_id := catalyst;
          CausalSequence.narrative := narrative;
          CausalSequence.risk_assessment :=
            if decide (StressScore.score stress > 80)
            then "CRITICAL: Structural failure imminent."
            else if decide (StressScore.score stress > 60)
            then "UNSTABLE: Corrective action likely insufficient."
            else "ELEVATED: Monitoring catalyst propagation." |}, e).

Definition levelUpgrade (e : AnalyticsEngine.t) (stress : StressScore.t) : bool :=
  bool_decide (getStressRank (previousLevel e)
               < getStressRank (StressScore.level stress))%nat
  && bool_decide (2 ≤ getStressRank (StressScore.level stress))%nat.

Definition alignmentIncrease (e : AnalyticsEngine.t) (stress : StressScore.t)
  : bool :=
  bool_decide (previousSignalsAligned e < StressScore.signals_aligned stress)%nat
  && bool_decide (StressScore.score stress > 60).

Definition detectCriticalEvent (e : AnalyticsEngine.t) (env : Env.t)
    (tick : Tick.t) (stress : StressScore.t) (causal : CausalSequence.t)
  : option CriticalEvent.t * AnalyticsEngine.t :=
  if levelUpgrade e stress || alignmentIncrease e stress then
    let event :=
      {| CriticalEvent.id :=
           "forensic_" +:+ show (Tick.exchange_timestamp tick) +:+ "_"
           +:+ show (js_floor (Env.random env * 999));
         CriticalEvent.timestamp := Tick.exchange_timestamp tick;
         CriticalEvent.price := Tick.price tick;
         CriticalEvent.stress_score := StressScore.score stress;
         CriticalEvent.level := StressScore.level stress;
         CriticalEvent.primary_factor :=
           default "Unknown Catalyst"
                   (signalName <$> CausalSequence.catalyst_id causal);
         CriticalEvent.narrative := CausalSequence.narrative causal;
         CriticalEvent.signals :=
           CausalStep.signal <$> CausalSequence.steps causal |} in
    (Some event,
     AnalyticsEngine.set_previous (StressScore.level stress)
       (StressScore.signals_aligned stress) e)
  else
    (None,
     AnalyticsEngine.set_previous (StressScore.level stress)
       (StressScore.signals_aligned stress) e).

(** [Date.now()] is called twice by [calculateStressWithTrace]; the calls of
    [buildCausalSequence] come after them. *)
Definition processTick (e : AnalyticsEngine.t) (env : Env.t) (tick : Tick.t)
  : result (Output.t * AnalyticsEngine.t) :=
  '(liq, e) ← processLiquidity e tick;
  flow ← processFlow tick;
  '(vol, e) ← processVolatility e tick;
  forced ← processForcedSelling tick;
  let signals :=
    {| Signals.liquidity := liq; Signals.flow := flow;
       Signals.volatility := vol; Signals.forcedSelling := forced |} in
  '(stress, trace, e) ← calculateStressWithTrace e env signals tick;
  '(causal, e) ←
    buildCausalSequence e (λ k, Env.now env (2 + k)) stress signals;
  let '(criticalEvent, e) := detectCriticalEvent e env tick stress causal in
  mret ({| Output.signals := signals; Output.stress := stress;
           Output.causal := causal; Output.criticalEvent := criticalEvent;
           Output.trace := trace |}, e).

(** A stream of ticks, each with the runtime readings of its call: the
    outputs in order and the engine left behind. *)
Fixpoint processTicks (e : AnalyticsEngine.t) (ticks : list (Env.t * Tick.t))
  : result (list Output.t * AnalyticsEngine.t) :=
  match ticks with
  | [] => mret ([], e)
  | (env, tick) :: rest =>
      '(out, e) ← processTick e env tick;
      '(outs, e) ← processTicks e rest;
      mret (out :: outs, e)
  end.

(** The tracker alone, over consecutive ticks: each entry holds the clock,
    the score and the signals of one call. *)
Fixpoint trackSequence (e : AnalyticsEngine.t)
    (calls : list ((nat → number) * StressScore.t * Signals.t))
  : result AnalyticsEngine.t :=
  match calls with
  | [] => mret e
  | (clock, stress, signals) :: rest =>
      '(_, e) ← buildCausalSequence e clock stress signals;
      trackSequence e rest
  end.
End Engine.

(** ** Notions of the specification *)

(** The ring after the pushes [xs], for a capacity [n >= 1]: the cursor is
    a valid index, the array holds [min (length xs) n] items and, read from
    the cursor, it is the last [n] items pushed. *)
Definition ring_inv {T : Type} (n : nat) (xs : list T) (b : CircularBuffer T)
  : Prop :=
  maxSize b = n ∧
  ∃ h, head b = Some h ∧ (h < n)%nat ∧
       length (buffer b) = (length xs `min` n)%nat ∧
       ((length xs < n)%nat → h = 0%nat) ∧
       drop h (buffer b) ++ take h (buffer b) = drop (length xs - n) xs.

(** The population standard deviation, as the specification words it: the
    square root of the mean squared distance to the mean. *)
Definition arithmetic_mean (l : list number) : number :=
  sumR l / INR (length l).
Definition population_stddev (l : list number) : number :=
  sqrt (sumR ((λ x, (x - arithmetic_mean l) ^ 2) <$> l) / INR (length l)).

(** [clamp(x, lo, hi)] *)
Definition clamp (x lo hi : number) : number := Rmin hi (Rmax lo x).

(** What the specification says of one entry of the weight breakdown. *)
Definition contributes (rawStress : number) (sig : SignalOutput.t)
    (wc : WeightContribution.t) : Prop :=
  WeightContribution.signal wc = SignalOutput.name sig ∧
  WeightContribution.weight wc = weights (SignalOutput.name sig) ∧
  WeightContribution.raw_value wc = SignalOutput.value sig ∧
  WeightContribution.contribution wc
  = SignalOutput.value sig * weights (SignalOutput.name sig) ∧
  WeightContribution.pct_of_total wc
  = (if decide (rawStress > 0)
     then WeightContribution.contribution wc / rawStress * 100 else 0).

(** A window whose cursor is a number and stays one: its capacity, the
    divisor of the remainder in [push], is not zero. *)
Definition numeric_cursor {T : Type} (b : CircularBuffer T) : Prop :=
  maxSize b ≠ 0%nat ∧ is_Some (head b).

(** The map [processTick] builds has every signal under its own name. *)
Definition keyed (signals : Signals.t) : Prop :=
  ∀ k, SignalOutput.name (Signals.get signals k) = k.

(** The trigger history a call of [buildCausalSequence] leaves behind. *)
Definition nextOrder (clock : nat → number) (old : list Trigger.t)
    (signals : Signals.t) : list Trigger.t :=
  if decide (activeSignals signals = 0%nat) then []
  else survivingOrder clock old signals.

(** No entry of the history is about signal [x]. *)
Definition absent (x : SignalType) (order : list Trigger.t) : Prop :=
  ∀ t, t ∈ order → Trigger.signal t ≠ x.



(** The score and the trace of an aggregation result, without the engine. *)
Definition reported {A B C : Type} (r : result (A * B * C)) : option (A * B) :=
  match r with
  | Ok (a, b, _) => Some (a, b)
  | Fault _ => None
  end.

(** A score and a trace without the fields that are read from the clock or
    from the fill of the windows. *)
Definition scoreCore (s : StressScore.t) : StressScore.t :=
  {| StressScore.score := StressScore.score s;
     StressScore.raw_score := StressScore.raw_score s;
     StressScore.level := StressScore.level s;
     StressScore.color := StressScore.color s;
     StressScore.signals_aligned := StressScore.signals_aligned s;
     StressScore.confidence := StressScore.confidence s;
     StressScore.breakdown := StressScore.breakdown s;
     StressScore.timestamp := 0 |}.

Definition traceCore (t : DecisionTrace.t) : DecisionTrace.t :=
  {| DecisionTrace.weight_contributions := DecisionTrace.weight_contributions t;
     DecisionTrace.raw_score := DecisionTrace.raw_score t;
     DecisionTrace.signals_aligned := DecisionTrace.signals_aligned t;
     DecisionTrace.shock_multiplier := DecisionTrace.shock_multiplier t;
     DecisionTrace.pre_smooth_score := DecisionTrace.pre_smooth_score t;
     DecisionTrace.smoothing_alpha := DecisionTrace.smoothing_alpha t;
     DecisionTrace.previous_score := DecisionTrace.previous_score t;
     DecisionTrace.final_score := DecisionTrace.final_score t;
     DecisionTrace.confidence_reasons := [];
     DecisionTrace.audit_narrative := DecisionTrace.audit_narrative t;
     DecisionTrace.timestamp := 0 |}.

(** A score record for the detector, given by its level, its score and its
    count of aligned signals. *)
Definition stress_of (level : StressLevel) (score : number) (aligned : nat)
  : StressScore.t :=
  {| StressScore.score := score; StressScore.raw_score := score;
     StressScore.level := level; StressScore.color := THEME_stress level;
     StressScore.signals_aligned := aligned; StressScore.confidence := LOW;
     StressScore.breakdown := Breakdown.mk 0 0 0 0;
     StressScore.timestamp := 0 |}.


(** The volatility risk with the long deviation replaced by 1 only when it
    is 0. *)
Definition volatility_risk_guarded (prices : list number) : number :=
  let short := population_stddev (slice_last 10 prices) in
  let long := population_stddev prices in
  clamp ((short / (if decide (long = 0) then 1 else long) - 1) * 50) 0 100.

(** ** Sample inputs *)

(** Stand-ins for the two formatters in the sample runs: a whole number is
    printed in decimal, as a template does; nothing else is printed. *)
Definition plain_toFixed : number → nat → string := λ _ _, "".
Definition plain_show (x : number) : string :=
  if decide (x = IZR (Int_part x)) then pretty (Int_part x) else "".

(** A runtime whose clock reads [t0], [t0 + 1], ... *)
Definition clock_from (t0 : number) : Env.t :=
  {| Env.now := λ k, t0 + INR k; Env.random := 0 |}.

Definition trades_of (buy_volume sell_volume : number) (large : list Trade.t)
  : Trades.t :=
  {| Trades.buy_volume := buy_volume; Trades.sell_volume := sell_volume;
     Trades.buy_count := 0; Trades.sell_count := 0;
     Trades.large_trades := large |}.

Definition tick_of (total_depth price : number) (tr : Trades.t) : Tick.t :=
  {| Tick.exchange_timestamp := 0; Tick.received_timestamp := 0;
     Tick.processing_timestamp := 0; Tick.price := price;
     Tick.volume_24h := 0; Tick.bids := []; Tick.asks := [];
     Tick.trades := tr; Tick.mid_price := price; Tick.spread := 0;
     Tick.spread_bps := 0; Tick.total_depth := total_depth;
     Tick.is_valid := true; Tick.data_quality := GOOD |}.

Definition quiet_tick : Tick.t := tick_of 0 0 (trades_of 0 0 []).

Definition signal_of (name : SignalType) (value : number) (triggered : bool)
  : SignalOutput.t :=
  {| SignalOutput.name := name; SignalOutput.value := value;
     SignalOutput.severity := getSeverity value;
     SignalOutput.triggered := triggered; SignalOutput.raw_metrics := [];
     SignalOutput.explanation := ""; SignalOutput.confidence := LOW;
     SignalOutput.timestamp := 0 |}.

(** The signals of scenario B. *)
Definition scenarioB : Signals.t :=
  {| Signals.liquidity := signal_of LIQUIDITY 80 true;
     Signals.flow := signal_of FLOW 0 false;
     Signals.volatility := signal_of VOLATILITY 0 false;
     Signals.forcedSelling := signal_of FORCED_SELLING 0 false |}.

Definition quiet_signals : Signals.t :=
  {| Signals.liquidity := signal_of LIQUIDITY 0 false;
     Signals.flow := signal_of FLOW 0 false;
     Signals.volatility := signal_of VOLATILITY 0 false;
     Signals.forcedSelling := signal_of FORCED_SELLING 0 false |}.

(** The engine after one tick without depth, price or trades. *)
Definition after_quiet_tick : AnalyticsEngine.t :=
  match processTick plain_toFixed plain_show newEngine (clock_from 0) quiet_tick
  with
  | Ok (_, e) => e
  | Fault _ => newEngine
  end.

(** Nineteen prices, ten calm ones and nine choppy ones, and the tick that
    brings the twentieth.  [processVolatility] reads the price window only. *)
Definition prices19 : list number :=
  [100.1; 99.9; 100.1; 99.9; 100.1; 99.9; 100.1; 99.9; 100.1; 99.9;
   100.7; 99.3; 100.7; 99.3; 100.7; 99.3; 100.7; 99.3; 100.7].

Definition engine_with_prices (prices : list number) : AnalyticsEngine.t :=
  AnalyticsEngine.set_priceBuffer (pushes (newBuffer 300) prices) newEngine.

Definition choppy_tick : Tick.t := tick_of 0 99.3 (trades_of 0 0 []).

Definition choppy_window : list number :=
  getAll (push (priceBuffer (engine_with_prices prices19))
               (Tick.price choppy_tick)).



(** * Properties *)

(** *** Properties of the ring *)

Section CircularBufferFacts.
Context {T : Type}.
Implicit Types (b : CircularBuffer T) (xs : list T) (x : T).

Lemma omap_seq_lookup (l : list T) (f : nat → option T) (s : nat) :
  (∀ i, (i < length l)%nat → f (s + i)%nat = l !! i) →
  omap f (seq s (length l)) = l.
Proof.
  revert s. induction l as [|a l IH]; intros s Hf; [done|].
  specialize (Hf 0%nat) as H0. rewrite Nat.add_0_r in H0.
  simpl. rewrite H0 by (simpl; lia). simpl. f_equal.
  apply IH. intros i Hi. replace (S s + i)%nat with (s + S i)%nat by lia.
  apply Hf. cbn. lia.
Qed.

(** With the cursor inside the array, [getAll] is the array read from the
    cursor round to the cursor. *)
Lemma getAll_rotation b h :
  head b = Some h → (h < size b)%nat →
  getAll b = drop h (buffer b) ++ take h (buffer b).
Proof.
  intros Hh Hlt. unfold getAll. rewrite Hh. unfold size in *.
  set (l := buffer b) in *.
  assert (Hlen : length (drop h l ++ take h l) = length l).
  { rewrite length_app, length_drop, length_take. lia. }
  rewrite <- (omap_seq_lookup (drop h l ++ take h l)
                (λ i, l !! ((h + i) mod length l)%nat) 0), Hlen; [done|].
  intros i Hi. rewrite Hlen in Hi. cbn [Nat.add].
  destruct (decide (h + i < length l)%nat) as [Hin|Hout].
  - rewrite Nat.mod_small by done.
    rewrite lookup_app_l by (rewrite length_drop; lia).
    by rewrite lookup_drop.
  - replace ((h + i) mod length l)%nat with (h + i - length l)%nat.
    + rewrite lookup_app_r by (rewrite length_drop; lia).
      rewrite length_drop, lookup_take_lt by lia. f_equal. lia.
    + apply Nat.mod_unique with (q := 1%nat); lia.
Qed.

Lemma ring_inv_new n : (0 < n)%nat → ring_inv n [] (newBuffer (T := T) n).
Proof.
  intros Hn. split; [done|]. exists 0%nat. cbn. repeat split; auto with lia.
Qed.

Lemma ring_inv_push n xs b x :
  ring_inv n xs b → ring_inv n (xs ++ [x]) (push b x).
Proof.
  intros (Hmax & h & Hh & Hlt & Hlen & Hzero & Hrot).
  unfold push. rewrite Hmax, Hh, Hlen.
  destruct (decide (length xs `min` n < n)%nat) as [Hroom|Hfull].
  - (* still filling *)
    assert (length xs < n)%nat by lia.
    specialize (Hzero ltac:(done)) as ->.
    split; [done|]. exists 0%nat. cbn [buffer head].
    rewrite drop_0, take_0, app_nil_r in *.
    replace (length xs - n)%nat with 0%nat in Hrot by lia.
    rewrite drop_0 in Hrot. subst xs.
    rewrite !length_app. cbn [length].
    repeat split; auto with lia.
    replace (length (buffer b) + 1 - n)%nat with 0%nat by lia.
    by rewrite drop_0.
  - (* full: overwrite the oldest slot and advance *)
    assert (Hn : (n ≤ length xs)%nat) by lia.
    assert (Hlb : length (buffer b) = n) by lia.
    split; [done|]. cbn [buffer head].
    unfold js_mod, array_store. rewrite Hlb.
    destruct (decide (n = 0%nat)); [lia|].
    destruct (decide (h < n)%nat); [|lia].
    exists ((h + 1) mod n)%nat. split; [done|].
    split; [apply Nat.mod_upper_bound; lia|].
    rewrite length_insert, length_app. cbn [length].
    split; [lia|]. split; [lia|].
    replace (length xs + 1 - n)%nat with (length xs - n + 1)%nat by lia.
    rewrite <- drop_drop, (drop_app_le xs) by lia.
    rewrite drop_app_le by (rewrite length_drop; lia).
    rewrite <- Hrot.
    rewrite (drop_app_le (drop h (buffer b))) by (rewrite length_drop; lia).
    rewrite drop_drop, Nat.add_1_r.
    destruct (decide (h + 1 < n)%nat) as [Hin|Hwrap].
    + rewrite Nat.mod_small by lia.
      rewrite drop_insert_lt by lia.
      rewrite take_S_r with (x := x); last first.
      { apply list_lookup_insert_eq. lia. }
      rewrite take_insert_ge by lia. by rewrite <- app_assoc.
    + assert (S h = n)%nat as Hw by lia.
      rewrite Hw, Nat.Div0.mod_same, drop_0, take_0, app_nil_r.
      rewrite (drop_ge (buffer b) n) by lia. cbn [app].
      rewrite <- (take_drop h (<[h:=x]> (buffer b))).
      rewrite take_insert_ge by lia. f_equal.
      rewrite drop_insert_ge by lia. rewrite Nat.sub_diag.
      destruct (drop h (buffer b)) as [|y l'] eqn:E;
        apply (f_equal length) in E; rewrite length_drop in E; cbn in E;
        [lia|].
      destruct l'; [done|cbn in E; lia].
Qed.

Lemma ring_inv_pushes n xs :
  (0 < n)%nat → ring_inv n xs (pushes (newBuffer n) xs).
Proof.
  intros Hn. induction xs as [|x xs IH] using rev_ind.
  - by apply ring_inv_new.
  - unfold pushes. rewrite foldl_snoc. by apply ring_inv_push.
Qed.

(** The cursor never runs ahead of the array, whatever the capacity. *)
Lemma head_le_length n xs h :
  head (pushes (newBuffer (T := T) n) xs) = Some h →
  (h ≤ length (buffer (pushes (newBuffer n) xs)))%nat.
Proof.
  destruct (decide (n = 0%nat)) as [->|Hn].
  - induction xs as [|x xs IH] using rev_ind; cbn.
    + intros [= <-]. lia.
    + unfold pushes in *. rewrite foldl_snoc. unfold push at 1 3. cbn.
      destruct (decide (_ < maxSize _)%nat) as [Hlt|Hge]; cbn.
      * intros Hh. specialize (IH Hh). rewrite length_app. lia.
      * destruct (head (foldl push (newBuffer 0) xs)) as [h'|] eqn:E;
          [|by rewrite E].
        cbn. unfold js_mod.
        assert (maxSize (foldl push (newBuffer (T := T) 0) xs) = 0%nat) as ->.
        { clear. induction xs as [|y xs IH] using rev_ind; [done|].
          rewrite foldl_snoc. unfold push.
          repeat case_match; cbn; done. }
        by destruct (decide (0 = 0)%nat).
  - intros Hh. destruct (ring_inv_pushes n xs ltac:(lia))
      as (_ & h' & Hh' & Hlt & Hlen & Hz & _).
    rewrite Hh in Hh'. injection Hh' as ->.
    destruct (decide (length xs < n)%nat); [rewrite Hz by done; lia|lia].
Qed.

(** With a numeric cursor [getAll] returns as many items as the window
    holds: [prices.length] is the fill of the window. *)
Lemma getAll_length b h : head b = Some h → length (getAll b) = size b.
Proof.
  intros Hh. unfold getAll. rewrite Hh.
  assert (∀ (f : nat → option T) l,
            (∀ i, i ∈ l → is_Some (f i)) → length (omap f l) = length l)
    as Hlen.
  { intros f l. induction l as [|i l IH]; intros Hf; [done|].
    destruct (Hf i) as [y Hy]; [apply list_elem_of_here|].
    simpl. rewrite Hy. simpl. f_equal. apply IH.
    intros j Hj. apply Hf. by apply list_elem_of_further. }
  rewrite Hlen, length_seq; [done|].
  intros i Hi%elem_of_seq. apply lookup_lt_is_Some_2.
  apply Nat.mod_upper_bound. unfold size in *. lia.
Qed.

Lemma push_numeric_cursor b x : numeric_cursor b → numeric_cursor (push b x).
Proof.
  intros [Hcap [h Hh]]. unfold numeric_cursor, push. rewrite Hh.
  destruct (decide (_ < _)%nat); cbn; (split; [done|]); [by eexists|].
  unfold js_mod. destruct (decide (maxSize b = 0%nat)); [done|by eexists].
Qed.
End CircularBufferFacts.

(** *** Numbers and faults *)

Lemma divide_ok (x y : R) : y ≠ 0 → divide x y = Ok (x / y).
Proof. intros H. unfold divide. by destruct (decide (y = 0)). Qed.

Lemma INR_pos_length {A : Type} (l : list A) : l ≠ [] → INR (length l) ≠ 0.
Proof.
  intros Hl. apply not_0_INR. destruct l; [done|]. cbn. lia.
Qed.

Lemma floor_unique (x : R) (z : Z) : IZR z <= x < IZR z + 1 → Int_part x = z.
Proof.
  intros [Hlo Hhi]. unfold Int_part.
  assert (z + 1 = up x)%Z as <-; [|lia].
  apply tech_up; rewrite plus_IZR; cbn; lra.
Qed.

Lemma floor_bounds (x : R) : IZR (Int_part x) <= x < IZR (Int_part x) + 1.
Proof.
  unfold Int_part. destruct (archimed x) as [Hgt Hle].
  rewrite minus_IZR. cbn. lra.
Qed.

Lemma js_round_IZR (x : R) (z : Z) :
  IZR z - / 2 <= x < IZR z + / 2 → js_round x = IZR z.
Proof.
  intros H. unfold js_round. f_equal. apply floor_unique. lra.
Qed.

Lemma js_round_0 : js_round 0 = 0.
Proof. apply (js_round_IZR 0 0). lra. Qed.

Lemma js_round_ge (x : R) (z : Z) : IZR z <= x → IZR z <= js_round x.
Proof.
  intros H. unfold js_round. apply IZR_le.
  destruct (floor_bounds (x + / 2)) as [_ Hhi].
  assert (IZR z < IZR (Int_part (x + / 2)) + 1) as Hlt by lra.
  rewrite <- (plus_IZR _ 1) in Hlt. apply lt_IZR in Hlt. lia.
Qed.

Lemma js_round_le (x : R) (z : Z) : x <= IZR z → js_round x <= IZR z.
Proof.
  intros H. unfold js_round. apply IZR_le.
  destruct (floor_bounds (x + / 2)) as [Hlo _].
  assert (IZR (Int_part (x + / 2)) < IZR z + 1) as Hlt by lra.
  rewrite <- (plus_IZR _ 1) in Hlt. apply lt_IZR in Hlt. lia.
Qed.

Lemma js_or_nonzero (x d : R) : d ≠ 0 → js_or x d ≠ 0.
Proof. intros Hd. unfold js_or. by destruct (decide (x = 0)). Qed.

Lemma foldl_Rplus_shift (l : list R) (a : R) :
  foldl Rplus a l = a + foldl Rplus 0 l.
Proof.
  revert a. induction l as [|x l IH]; intros a; cbn; [lra|].
  rewrite (IH (a + x)), (IH (0 + x)). lra.
Qed.

(** *** The rolling window *)

(** C5, amended to capacities of at least one: after any pushes the window
    holds at most [N] items, exactly [N] once [N] have been pushed, and after
    [N + k] pushes [getAll] is the pushed sequence without its [k] oldest
    items, in order. *)
Theorem ring_size_and_fifo {T : Type} (N : nat) (xs : list T) :
  (1 ≤ N)%nat →
  (size (pushes (newBuffer N) xs) ≤ N)%nat ∧
  ((N ≤ length xs)%nat → size (pushes (newBuffer N) xs) = N) ∧
  (∀ k, (0 < k)%nat → length xs = (N + k)%nat →
        size (pushes (newBuffer N) xs) = N ∧
        getAll (pushes (newBuffer N) xs) = drop k xs).
Proof.
  intros HN.
  destruct (ring_inv_pushes N xs ltac:(lia))
    as (Hmax & h & Hh & Hlt & Hlen & Hzero & Hrot).
  unfold size. rewrite Hlen. split; [lia|]. split; [lia|].
  intros k Hk Hxs. split; [lia|].
  rewrite (getAll_rotation _ h Hh) by (unfold size; lia).
  rewrite Hrot. f_equal. lia.
Qed.

Lemma ring_size_and_fifo_witness :
  (1 ≤ 3)%nat ∧
  getAll (pushes (newBuffer 3) [1; 2; 3; 4; 5]%nat) = [3; 4; 5]%nat.
Proof.
  split; [lia|].
  destruct (ring_size_and_fifo 3 [1; 2; 3; 4; 5]%nat) as (_ & _ & H); [lia|].
  apply (H 2%nat); [lia|reflexivity].
Defined.

(** C5 as stated fails at capacity zero: the first push stores at index 0 of
    the empty array, which grows to one element. *)
Lemma ring_capacity_zero_overflows :
  size (push (newBuffer 0) 7%nat) = 1%nat ∧
  ¬ (∀ (N : nat) (xs : list nat), (size (pushes (newBuffer N) xs) ≤ N)%nat).
Proof.
  split; [reflexivity|].
  intros H. specialize (H 0%nat [7%nat]).
  change (pushes (newBuffer 0) [7%nat]) with (push (newBuffer 0) 7%nat) in H.
  vm_compute in H. lia.
Qed.

(** *** The signal evaluators *)

Section EngineFacts.
Variable toFixed : R → nat → string.
Variable show : R → string.

Lemma mean_total (b : CircularBuffer R) : ∃ m, mean Some b = Ok m.
Proof.
  unfold mean. destruct (decide (length (buffer b) = 0%nat)) as [|Hn]; [by eexists|].
  rewrite divide_ok; [by eexists|]. apply not_0_INR. done.
Qed.

Lemma liquidity_depthChange_total d b : ∃ dc, liquidity_depthChange d b = Ok dc.
Proof.
  unfold liquidity_depthChange. destruct (decide (b = 0)); [by eexists|].
  rewrite divide_ok by done. by eexists.
Qed.

Lemma liquidity_risk_range dc : ∃ r, liquidity_risk dc = Ok r ∧ 0 <= r <= 100.
Proof.
  unfold liquidity_risk. destruct (decide (dc >= 0)) as [|Hneg].
  - exists 0. split; [done|lra].
  - rewrite divide_ok by lra. eexists. split; [done|].
    split; [|apply Rmin_l].
    apply Rmin_glb; lra.
Qed.

Lemma processLiquidity_ok e tick :
  ∃ risk sig,
    0 <= risk <= 100 ∧
    processLiquidity toFixed e tick
    = Ok (sig, AnalyticsEngine.set_liquidityBuffer
                 (push (liquidityBuffer e) (Tick.total_depth tick)) e) ∧
    SignalOutput.name sig = LIQUIDITY ∧
    SignalOutput.value sig = js_round risk ∧
    SignalOutput.triggered sig = bool_decide (risk > 60).
Proof.
  unfold processLiquidity.
  destruct (mean_total (push (liquidityBuffer e) (Tick.total_depth tick))) as [m ->].
  destruct (liquidity_depthChange_total (Tick.total_depth tick) m) as [dc Hdc].
  destruct (liquidity_risk_range dc) as (r & Hr & Hrange).
  cbn. rewrite Hdc. cbn. rewrite Hr. cbn.
  exists r. eexists. split; [done|]. split; [reflexivity|]. done.
Qed.

Lemma processFlow_ok tick :
  ∃ sig, processFlow toFixed tick = Ok sig ∧
         SignalOutput.name sig = FLOW ∧ 0 <= SignalOutput.value sig.
Proof.
  unfold processFlow.
  destruct (decide (_ = 0)) as [|Hvol].
  - eexists. split; [done|]. cbn. split; [done|lra].
  - rewrite divide_ok by done. cbn.
    rewrite divide_ok by (apply js_or_nonzero; lra). cbn.
    eexists. split; [done|]. cbn. split; [done|].
    apply (js_round_ge _ 0). apply Rmax_l.
Qed.

Lemma sumR_cons (x : R) (l : list R) : sumR (x :: l) = x + sumR l.
Proof.
  unfold sumR. cbn. rewrite foldl_Rplus_shift. lra.
Qed.

Lemma foldl_sum_fmap (f : R → R) (l : list R) (a : R) :
  foldl (λ acc b, acc + f b) a l = foldl Rplus a (f <$> l).
Proof. revert a. induction l as [|x l IH]; intros a; cbn; [done|apply IH]. Qed.

(** [getStd] computes the population standard deviation of a non-empty
    array. *)
Lemma getStd_ok (arr : list R) :
  arr ≠ [] → getStd arr = Ok (population_stddev arr).
Proof.
  intros Hne. unfold getStd, population_stddev, arithmetic_mean.
  destruct arr as [|a rest]; [done|]. cbn [reduce1 mbind result_bind].
  rewrite divide_ok by (by apply INR_pos_length). cbn [mbind result_bind].
  rewrite divide_ok by (by apply INR_pos_length). cbn [mbind result_bind mret result_ret].
  rewrite foldl_sum_fmap.
  assert (foldl Rplus a rest = sumR (a :: rest)) as ->; [|done].
  rewrite sumR_cons. apply foldl_Rplus_shift.
Qed.

Lemma slice_last_length {A : Type} (n : nat) (l : list A) :
  (n ≤ length l)%nat → length (slice_last n l) = n.
Proof. intros H. unfold slice_last. rewrite length_drop. lia. Qed.

Lemma volatility_ratio_ok (prices : list R) :
  (20 ≤ length prices)%nat →
  volatility_ratio prices
  = Ok (population_stddev (slice_last 10 prices)
          / js_or (population_stddev prices) 1,
        population_stddev (slice_last 10 prices)).
Proof.
  intros Hlen. unfold volatility_ratio. cbv zeta.
  rewrite (getStd_ok prices) by (intros E; subst; cbn in Hlen; lia).
  rewrite (getStd_ok (slice_last 10 prices)); last first.
  { intros E. pose proof (slice_last_length 10 prices ltac:(lia)) as Hl.
    rewrite E in Hl. done. }
  cbn [mbind result_bind].
  rewrite divide_ok by (apply js_or_nonzero; lra). done.
Qed.

Lemma volatility_risk_range (ratio : R) : 0 <= volatility_risk ratio <= 100.
Proof.
  unfold volatility_risk. split; [|apply Rmin_l].
  apply Rmin_glb; [lra|apply Rmax_l].
Qed.

Lemma processVolatility_ok e tick :
  ∃ sig,
    processVolatility toFixed e tick
    = Ok (sig, AnalyticsEngine.set_priceBuffer
                 (push (priceBuffer e) (Tick.price tick)) e) ∧
    SignalOutput.name sig = VOLATILITY ∧
    0 <= SignalOutput.value sig <= 100.
Proof.
  unfold processVolatility.
  destruct (decide (_ < 20)%nat) as [|Hfull].
  - eexists. split; [done|]. cbn. split; [done|lra].
  - rewrite volatility_ratio_ok by lia. cbn.
    eexists. split; [done|]. cbn. split; [done|].
    match goal with |- context [volatility_risk ?r] =>
      destruct (volatility_risk_range r) end.
    split; [by apply (js_round_ge _ 0)|by apply (js_round_le _ 100)].
Qed.

Lemma processForcedSelling_ok tick :
  ∃ sig,
    processForcedSelling toFixed tick = Ok sig ∧
    SignalOutput.name sig = FORCED_SELLING ∧
    SignalOutput.value sig = js_round (Rmin 100 (totalLargeVol tick / 5 * 100)) ∧
    SignalOutput.triggered sig
    = bool_decide (Rmin 100 (totalLargeVol tick / 5 * 100) > 45).
Proof.
  unfold processForcedSelling. rewrite divide_ok by lra. cbn.
  eexists. split; [done|]. done.
Qed.

(** *** The aggregator *)

Lemma weightContribution_ok (raw : R) (sig : SignalOutput.t) :
  ∃ wc, weightContribution raw sig = Ok wc ∧ contributes raw sig wc.
Proof.
  unfold weightContribution, contributes.
  destruct (decide (raw > 0)) as [Hpos|Hnpos].
  - rewrite divide_ok by lra. cbn. eexists. split; [done|]. cbn.
    destruct (decide (raw > 0)); done.
  - cbn. eexists. split; [done|]. cbn.
    destruct (decide (raw > 0)); done.
Qed.

Lemma mapR_weightContribution_ok (raw : R) (sigs : list SignalOutput.t) :
  ∃ wcs, mapR (weightContribution raw) sigs = Ok wcs ∧
         Forall2 (contributes raw) sigs wcs.
Proof.
  induction sigs as [|sig sigs (wcs & Hwcs & Hall)].
  - exists []. split; [done|constructor].
  - destruct (weightContribution_ok raw sig) as (wc & Hwc & Hc).
    exists (wc :: wcs). cbn. rewrite Hwc. cbn. rewrite Hwcs. cbn.
    split; [done|by constructor].
Qed.

Lemma sort_insert_length {A : Type} (cmp : A → A → R) (x : A) (l : list A) :
  length (sort_insert cmp x l) = S (length l).
Proof.
  induction l as [|y l IH]; [done|]. cbn.
  destruct (decide (cmp x y > 0)); cbn; [by rewrite IH|done].
Qed.

Lemma js_sort_length {A : Type} (cmp : A → A → R) (l : list A) :
  length (js_sort cmp l) = length l.
Proof.
  induction l as [|x l IH]; [done|].
  unfold js_sort in *. cbn. by rewrite sort_insert_length, IH.
Qed.

(** What [calculateStressWithTrace] returns and stores, field by field. *)
Lemma calculateStressWithTrace_ok e env signals tick :
  ∃ stress trace,
    calculateStressWithTrace toFixed show e env signals tick
    = Ok (stress, trace,
          AnalyticsEngine.set_stress
            (smoothedStress signals (previousStress e)) trace e) ∧
    (DecisionTrace.raw_score trace = rawStress signals ∧
     DecisionTrace.signals_aligned trace = activeSignals signals ∧
     DecisionTrace.shock_multiplier trace = shockMultiplier signals ∧
     DecisionTrace.pre_smooth_score trace = targetStress signals ∧
     DecisionTrace.smoothing_alpha trace
     = smoothingAlpha (targetStress signals) (previousStress e) ∧
     DecisionTrace.previous_score trace = previousStress e ∧
     DecisionTrace.final_score trace
     = js_round (smoothedStress signals (previousStress e)) ∧
     DecisionTrace.timestamp trace = Env.now env 0) ∧
    (StressScore.score stress
     = js_round (smoothedStress signals (previousStress e)) ∧
     StressScore.raw_score stress = rawStress signals ∧
     StressScore.level stress
     = classifyLevel (smoothedStress signals (previousStress e)) ∧
     StressScore.signals_aligned stress = activeSignals signals ∧
     StressScore.timestamp stress = Env.now env 1) ∧
    Forall2 (contributes (rawStress signals)) (Signals.values signals)
            (DecisionTrace.weight_contributions trace).
Proof.
  unfold calculateStressWithTrace. cbv zeta.
  rewrite divide_ok by (cbn; lra). cbn [mbind result_bind].
  destruct (mapR_weightContribution_ok (rawStress signals)
              (Signals.values signals)) as (wcs & -> & Hall).
  cbn [mbind result_bind].
  destruct (js_sort _ wcs) as [|dominant rest] eqn:Hsort.
  { apply (f_equal length) in Hsort. rewrite js_sort_length in Hsort.
    apply Forall2_length in Hall. cbn in Hall, Hsort. lia. }
  cbn [mbind result_bind mret result_ret].
  eexists. eexists. split; [reflexivity|]. cbn. done.
Qed.

(** *** The causal chain tracker *)

Lemma generateNarrative_total steps stress :
  ∃ s, generateNarrative show steps stress = Ok s.
Proof.
  unfold generateNarrative. destruct steps as [|first rest]; [by eexists|].
  destruct (decide (length (first :: rest) = 1%nat)); [by eexists|].
  destruct (decide (0 < _)%nat); [by eexists|].
  destruct (lookup_lt_is_Some_2 (first :: rest)
              (length (first :: rest) - 1)) as [final ->]; [cbn; lia|].
  by eexists.
Qed.

(** The [forEach]: old entries stay, in place; every triggered signal ends up
    with an entry; a new entry carries a reading of the clock. *)
Lemma recordTrigger_foldl clock acts order k :
  let order' := (foldl (recordTrigger clock) (order, k) acts).1 in
  (∀ t, t ∈ order → t ∈ order') ∧
  (∀ s, s ∈ acts → ∃ t, t ∈ order' ∧ Trigger.signal t = SignalOutput.name s) ∧
  (∀ t, t ∈ order' →
        t ∈ order ∨ ∃ j, Trigger.timestamp t = clock j).
Proof.
  revert order k. induction acts as [|s acts IH]; intros order k; cbn zeta.
  - cbn. split; [done|]. split; [|by left].
    intros s Hs. by apply elem_of_nil in Hs.
  - cbn [foldl]. unfold recordTrigger at 2 4 6.
    destruct (list_find _ order) as [[i t0]|] eqn:Hfind.
    + destruct (IH order k) as (Hkeep & Hall & Hnew).
      split; [done|]. split; [|done].
      intros s' [->|Hs']%elem_of_cons; [|by apply Hall].
      apply list_find_Some in Hfind as (Hi & Hsig & _).
      exists t0. split; [|done].
      apply Hkeep. by apply list_elem_of_lookup_2 in Hi.
    + set (entry := {| Trigger.signal := SignalOutput.name s;
                       Trigger.timestamp := clock k;
                       Trigger.initialValue := SignalOutput.value s |}).
      destruct (IH (order ++ [entry]) (S k)) as (Hkeep & Hall & Hnew).
      split; [|split].
      * intros t Ht. apply Hkeep. apply elem_of_app. by left.
      * intros s' [->|Hs']%elem_of_cons; [|by apply Hall].
        exists entry. split; [|done].
        apply Hkeep. apply elem_of_app. right. by apply list_elem_of_singleton.
      * intros t Ht. destruct (Hnew t Ht) as [Hin|Hfresh]; [|by right].
        apply elem_of_app in Hin as [Hin|Hin]; [by left|].
        apply list_elem_of_singleton in Hin as ->. right. by exists k.
Qed.

Lemma active_signal_listed signals x :
  SignalOutput.triggered (Signals.get signals x) = true →
  Signals.get signals x
  ∈ filter (λ s, SignalOutput.triggered s = true) (Signals.values signals).
Proof.
  intros Htrig. apply list_elem_of_filter. split; [done|].
  unfold Signals.values. destruct x; cbn; rewrite !elem_of_cons; tauto.
Qed.

Lemma active_signal_counts signals x :
  SignalOutput.triggered (Signals.get signals x) = true →
  activeSignals signals ≠ 0%nat.
Proof.
  intros Htrig%active_signal_listed Hzero. unfold activeSignals in Hzero.
  apply length_zero_iff_nil in Hzero. rewrite Hzero in Htrig.
  by apply elem_of_nil in Htrig.
Qed.

(** A signal that is not triggered has no entry in the history left
    behind. *)
Lemma nextOrder_absent clock old signals x :
  SignalOutput.triggered (Signals.get signals x) = false →
  absent x (nextOrder clock old signals).
Proof.
  intros Hquiet t Ht Hx. unfold nextOrder in Ht.
  destruct (decide (_ = 0%nat)); [by apply elem_of_nil in Ht|].
  apply list_elem_of_filter in Ht as [Htrig _].
  rewrite Hx, Hquiet in Htrig. done.
Qed.

(** A triggered signal without an entry gets one, stamped by this call. *)
Lemma nextOrder_fresh clock old signals x :
  absent x old →
  SignalOutput.triggered (Signals.get signals x) = true →
  SignalOutput.name (Signals.get signals x) = x →
  (∃ t, t ∈ nextOrder clock old signals ∧ Trigger.signal t = x) ∧
  (∀ t, t ∈ nextOrder clock old signals → Trigger.signal t = x →
        ∃ k, Trigger.timestamp t = clock k).
Proof.
  intros Habs Htrig Hname. unfold nextOrder.
  destruct (decide (_ = 0%nat)) as [Hz|_];
    [by apply active_signal_counts in Htrig|].
  unfold survivingOrder, recordedOrder.
  destruct (recordTrigger_foldl clock
              (filter (λ s, SignalOutput.triggered s = true)
                      (Signals.values signals)) old 0)
    as (Hkeep & Hall & Hnew).
  split.
  - destruct (Hall _ (active_signal_listed _ _ Htrig)) as (t & Ht & Hsig).
    exists t. rewrite Hname in Hsig. split; [|done].
    apply list_elem_of_filter. split; [|done]. by rewrite Hsig.
  - intros t [_ Ht]%list_elem_of_filter Hsig.
    destruct (Hnew t Ht) as [Hold|Hfresh]; [|done].
    by destruct (Habs t Hold).
Qed.

Lemma buildCausalSequence_ok e clock stress signals :
  ∃ chain,
    buildCausalSequence show e clock stress signals
    = Ok (chain, AnalyticsEngine.set_triggerOrder
                   (nextOrder clock (triggerOrder e) signals) e) ∧
    CausalSequence.active chain
    = bool_decide (activeSignals signals ≠ 0%nat) ∧
    CausalSequence.steps chain
    = imap (causalStep stress signals)
           (nextOrder clock (triggerOrder e) signals) ∧
    CausalSequence.catalyst_id chain
    = Trigger.signal <$> nextOrder clock (triggerOrder e) signals !! 0%nat ∧
    (activeSignals signals = 0%nat → chain = inactiveChain).
Proof.
  unfold buildCausalSequence, nextOrder, activeSignals. cbv zeta.
  destruct (decide (length _ = 0%nat)) as [Hz|Hnz].
  - exists inactiveChain. rewrite bool_decide_eq_false_2 by tauto. done.
  - destruct (generateNarrative_total
                (imap (causalStep stress signals)
                   (survivingOrder clock (triggerOrder e) signals)) stress)
      as [narrative ->].
    cbn. eexists. split; [reflexivity|]. cbn.
    rewrite bool_decide_eq_true_2 by done. done.
Qed.

Lemma trackSequence_absent e calls x :
  absent x (triggerOrder e) →
  Forall (λ '(_, _, sg), SignalOutput.triggered (Signals.get sg x) = false)
         calls →
  ∃ e', trackSequence show e calls = Ok e' ∧ absent x (triggerOrder e').
Proof.
  intros Habs Hquiet. revert e Habs.
  induction Hquiet as [|[[clock stress] signals] calls Hx _ IH]; intros e Habs.
  - by exists e.
  - cbn [trackSequence].
    destruct (buildCausalSequence_ok e clock stress signals)
      as (chain & -> & _).
    cbn. apply IH. cbn. by apply nextOrder_absent.
Qed.

(** *** The critical event detector *)

Lemma detectCriticalEvent_spec e env tick stress causal :
  (is_Some (detectCriticalEvent show e env tick stress causal).1 ↔
   ((getStressRank (previousLevel e)
     < getStressRank (StressScore.level stress))%nat ∧
    (2 ≤ getStressRank (StressScore.level stress))%nat) ∨
   ((previousSignalsAligned e < StressScore.signals_aligned stress)%nat ∧
    StressScore.score stress > 60)) ∧
  (detectCriticalEvent show e env tick stress causal).2
  = AnalyticsEngine.set_previous (StressScore.level stress)
      (StressScore.signals_aligned stress) e.
Proof.
  unfold detectCriticalEvent, levelUpgrade, alignmentIncrease.
  destruct (_ || _) eqn:Hfire; cbn [fst snd]; (split; [|done]).
  - split; [intros _|by eexists].
    apply orb_prop in Hfire as [H|H]; apply andb_prop in H as [H1 H2];
      apply bool_decide_eq_true in H1, H2; tauto.
  - split; [by intros [? [=]]|intros Hcond].
    apply orb_false_elim in Hfire as [H1 H2].
    apply andb_false_iff in H1, H2.
    rewrite !bool_decide_eq_false in H1, H2. tauto.
Qed.

(** *** One tick *)

(** [processTick] never faults; its result, stage by stage. *)
Lemma processTick_ok e env tick :
  ∃ liq fl vol fs stress trace causal,
    let e1 := AnalyticsEngine.set_liquidityBuffer
                (push (liquidityBuffer e) (Tick.total_depth tick)) e in
    let e2 := AnalyticsEngine.set_priceBuffer
                (push (priceBuffer e1) (Tick.price tick)) e1 in
    let signals := {| Signals.liquidity := liq; Signals.flow := fl;
                      Signals.volatility := vol;
                      Signals.forcedSelling := fs |} in
    let e3 := AnalyticsEngine.set_stress
                (smoothedStress signals (previousStress e2)) trace e2 in
    let clock := λ k, Env.now env (2 + k) in
    let e4 := AnalyticsEngine.set_triggerOrder
                (nextOrder clock (triggerOrder e3) signals) e3 in
    (processLiquidity toFixed e tick = Ok (liq, e1) ∧
     processFlow toFixed tick = Ok fl ∧
     processVolatility toFixed e1 tick = Ok (vol, e2) ∧
     processForcedSelling toFixed tick = Ok fs ∧
     calculateStressWithTrace toFixed show e2 env signals tick
     = Ok (stress, trace, e3) ∧
     buildCausalSequence show e3 clock stress signals = Ok (causal, e4)) ∧
    processTick toFixed show e env tick
    = Ok ({| Output.signals := signals; Output.stress := stress;
             Output.causal := causal;
             Output.criticalEvent :=
               (detectCriticalEvent show e4 env tick stress causal).1;
             Output.trace := trace |},
          (detectCriticalEvent show e4 env tick stress causal).2) ∧
    (keyed signals ∧
     0 <= SignalOutput.value liq <= 100 ∧
     0 <= SignalOutput.value fl ∧
     0 <= SignalOutput.value vol <= 100 ∧
     SignalOutput.value fs
     = js_round (Rmin 100 (totalLargeVol tick / 5 * 100))).
Proof.
  destruct (processLiquidity_ok e tick)
    as (risk & liq & Hrisk & Hliq & Nliq & Vliq & _).
  destruct (processFlow_ok tick) as (fl & Hfl & Nfl & Vfl).
  set (e1 := AnalyticsEngine.set_liquidityBuffer _ e) in *.
  destruct (processVolatility_ok e1 tick) as (vol & Hvol & Nvol & Vvol).
  set (e2 := AnalyticsEngine.set_priceBuffer _ e1) in *.
  destruct (processForcedSelling_ok tick) as (fs & Hfs & Nfs & Vfs & _).
  set (signals := {| Signals.liquidity := liq; Signals.flow := fl;
                     Signals.volatility := vol; Signals.forcedSelling := fs |}).
  destruct (calculateStressWithTrace_ok e2 env signals tick)
    as (stress & trace & Hcalc & _).
  set (e3 := AnalyticsEngine.set_stress _ trace e2) in *.
  destruct (buildCausalSequence_ok e3 (λ k, Env.now env (2 + k)) stress signals)
    as (causal & Hcausal & _).
  exists liq, fl, vol, fs, stress, trace, causal. cbv zeta.
  fold e1 e2 signals e3.
  split; [done|]. split.
  - unfold processTick. rewrite Hliq. cbn [mbind result_bind].
    rewrite Hfl. cbn [mbind result_bind].
    rewrite Hvol. cbn [mbind result_bind].
    rewrite Hfs. cbn [mbind result_bind]. fold signals.
    rewrite Hcalc. cbn [mbind result_bind].
    rewrite Hcausal. cbn [mbind result_bind].
    by destruct (detectCriticalEvent _ _ _ _ _ _).
  - split; [by intros []|].
    rewrite Vliq. destruct Hrisk.
    split; [split; [by apply (js_round_ge _ 0)|by apply (js_round_le _ 100)]|].
    done.
Qed.

(** The windows after a tick. *)
Lemma processTick_windows e env tick out e' :
  processTick toFixed show e env tick = Ok (out, e') →
  liquidityBuffer e' = push (liquidityBuffer e) (Tick.total_depth tick) ∧
  priceBuffer e' = push (priceBuffer e) (Tick.price tick) ∧
  volBuffer e' = volBuffer e.
Proof.
  destruct (processTick_ok e env tick)
    as (liq & fl & vol & fs & stress & trace & causal & _ & Htick & _).
  cbv zeta in Htick.
  match type of Htick with
  | context [(detectCriticalEvent _ ?e4 _ _ ?st ?ca).2] =>
      destruct (detectCriticalEvent_spec e4 env tick st ca) as [_ Hdet]
  end.
  rewrite Hdet in Htick. rewrite Htick. by intros [= <- <-].
Qed.

(** *** Claims about the aggregator *)

Lemma Rmin_100 (x : R) : x <= 100 → Rmin 100 x = x.
Proof. intros H. unfold Rmin. destruct (Rle_dec 100 x); lra. Qed.

(** C1, scenario B: with a stored previous score of 0, liquidity at 80 and
    triggered, the other three signals at 0 and untriggered, the aggregator
    computes a raw score of 28, one active signal, a shock multiplier of
    1.08, a target of 30.24, alpha 0.35, a smoothed score of 10.584 (which
    it stores), a final score of 11 and the level STABLE. *)
Theorem scenario_B_aggregation e env signals tick :
  previousStress e = 0 →
  SignalOutput.value (Signals.liquidity signals) = 80 →
  SignalOutput.triggered (Signals.liquidity signals) = true →
  SignalOutput.value (Signals.flow signals) = 0 →
  SignalOutput.triggered (Signals.flow signals) = false →
  SignalOutput.value (Signals.volatility signals) = 0 →
  SignalOutput.triggered (Signals.volatility signals) = false →
  SignalOutput.value (Signals.forcedSelling signals) = 0 →
  SignalOutput.triggered (Signals.forcedSelling signals) = false →
  ∃ stress trace e',
    calculateStressWithTrace toFixed show e env signals tick
    = Ok (stress, trace, e') ∧
    DecisionTrace.raw_score trace = 28.0 ∧
    DecisionTrace.signals_aligned trace = 1%nat ∧
    DecisionTrace.shock_multiplier trace = 1.08 ∧
    DecisionTrace.pre_smooth_score trace = 30.24 ∧
    DecisionTrace.smoothing_alpha trace = 0.35 ∧
    previousStress e' = 10.584 ∧
    DecisionTrace.final_score trace = 11 ∧
    StressScore.score stress = 11 ∧
    StressScore.level stress = STABLE.
Proof.
  intros Hprev Vl Tl Vf Tf Vv Tv Vs Ts.
  destruct (calculateStressWithTrace_ok e env signals tick)
    as (stress & trace & Heq
        & (Hraw & Hal & Hshock & Hpre & Halpha & _ & Hfinal & _)
        & (Hscore & _ & Hlevel & _) & _).
  assert (Eraw : rawStress signals = 28).
  { unfold rawStress, weights. cbn [Signals.get]. rewrite Vl, Vf, Vv, Vs. lra. }
  assert (Eact : activeSignals signals = 1%nat).
  { unfold activeSignals, Signals.values.
    rewrite filter_cons_True by done.
    rewrite !filter_cons_False by (by rewrite ?Tf, ?Tv, ?Ts). done. }
  assert (Eshock : shockMultiplier signals = 1.08).
  { unfold shockMultiplier. rewrite Eact. cbn. lra. }
  assert (Etarget : targetStress signals = 30.24).
  { unfold targetStress. rewrite Eraw, Eshock. rewrite Rmin_100; lra. }
  assert (Ealpha : smoothingAlpha (targetStress signals) (previousStress e)
                   = 0.35).
  { rewrite Etarget, Hprev. unfold smoothingAlpha.
    destruct (decide (30.24 > 0)); [done|lra]. }
  assert (Esmooth : smoothedStress signals (previousStress e) = 10.584).
  { unfold smoothedStress. cbv zeta. rewrite Ealpha, Etarget, Hprev. lra. }
  rewrite Esmooth in *.
  exists stress, trace. eexists. split; [exact Heq|].
  rewrite Hraw, Hal, Hshock, Hpre, Halpha, Hfinal, Hscore, Hlevel.
  repeat split; try done; try lra.
  - apply (js_round_IZR _ 11). lra.
  - apply (js_round_IZR _ 11). lra.
  - unfold classifyLevel. destruct (decide (10.584 < 25)); [done|lra].
Qed.

Lemma sumR_4 (a b c d : R) : sumR [a; b; c; d] = a + b + c + d.
Proof. unfold sumR. cbn. lra. Qed.

(** The breakdown sums to the raw score for a map that holds every signal
    under its own name. *)
Lemma contributions_sum signals wcs :
  keyed signals →
  Forall2 (contributes (rawStress signals)) (Signals.values signals) wcs →
  sumR (WeightContribution.contribution <$> wcs) = rawStress signals.
Proof.
  intros Hkey Hall. unfold Signals.values in Hall.
  repeat match goal with
         | H : Forall2 _ (_ :: _) _ |- _ =>
             apply Forall2_cons_inv_l in H
               as (? & ? & (_ & _ & _ & ? & _) & H & ->)
         | H : Forall2 _ [] _ |- _ => apply Forall2_nil_inv_l in H as ->
         end.
  cbn [fmap list_fmap]. rewrite sumR_4.
  pose proof (Hkey LIQUIDITY) as K1. pose proof (Hkey FLOW) as K2.
  pose proof (Hkey VOLATILITY) as K3. pose proof (Hkey FORCED_SELLING) as K4.
  cbn [Signals.get] in K1, K2, K3, K4.
  unfold rawStress. cbn [Signals.get]. congruence.
Qed.

(** C9, the trace-sum identity: each entry of the weight breakdown has
    contribution = value x weight and pct_of_total = contribution /
    raw_score x 100 when the raw score is positive, 0 otherwise; the four
    contributions add up to the raw score of the trace.  This holds for the
    aggregator on every map that holds each signal under its own name, and
    so for the trace of every tick. *)
Theorem trace_sum_identity e env tick signals :
  (∃ stress trace e',
     calculateStressWithTrace toFixed show e env signals tick
     = Ok (stress, trace, e') ∧
     Forall2 (contributes (DecisionTrace.raw_score trace))
             (Signals.values signals)
             (DecisionTrace.weight_contributions trace) ∧
     (keyed signals →
      sumR (WeightContribution.contribution
              <$> DecisionTrace.weight_contributions trace)
      = DecisionTrace.raw_score trace)) ∧
  (∃ out e',
     processTick toFixed show e env tick = Ok (out, e') ∧
     Forall2 (contributes (DecisionTrace.raw_score (Output.trace out)))
             (Signals.values (Output.signals out))
             (DecisionTrace.weight_contributions (Output.trace out)) ∧
     length (DecisionTrace.weight_contributions (Output.trace out)) = 4%nat ∧
     sumR (WeightContribution.contribution
             <$> DecisionTrace.weight_contributions (Output.trace out))
     = DecisionTrace.raw_score (Output.trace out)).
Proof.
  split.
  - destruct (calculateStressWithTrace_ok e env signals tick)
      as (stress & trace & Heq & (Hraw & _) & _ & Hall).
    exists stress, trace. eexists. split; [exact Heq|].
    rewrite Hraw. split; [done|]. intros Hkey. by apply contributions_sum.
  - destruct (processTick_ok e env tick)
      as (liq & fl & vol & fs & stress & trace & causal
          & (_ & _ & _ & _ & Hcalc & _) & Htick & Hkey & _).
    cbv zeta in *.
    set (signals' := {| Signals.liquidity := liq; Signals.flow := fl;
                        Signals.volatility := vol;
                        Signals.forcedSelling := fs |}) in *.
    match type of Hcalc with
    | calculateStressWithTrace _ _ ?e2 _ _ _ = _ =>
        destruct (calculateStressWithTrace_ok e2 env signals' tick)
          as (stress' & trace' & Heq & (Hraw & _) & _ & Hall)
    end.
    rewrite Heq in Hcalc. injection Hcalc as <- <- _.
    eexists. eexists. split; [exact Htick|].
    cbn [Output.trace Output.signals].
    rewrite Hraw. split; [done|]. split.
    + apply Forall2_length in Hall. by rewrite <- Hall.
    + by apply contributions_sum.
Qed.

(** C4, amended: the score and the trace are a function of the four
    signals, the previous smoothed score, the fill of the liquidity and price
    windows and the two clock readings.  Two runs that agree on the signals
    and the previous score agree on every field but the two timestamps and
    the confidence rationale; if they also agree on the window fills and on
    the clock, the records are identical. *)
Theorem aggregation_deterministic e1 e2 env1 env2 signals tick1 tick2 :
  previousStress e1 = previousStress e2 →
  ∃ stress1 trace1 e1' stress2 trace2 e2',
    calculateStressWithTrace toFixed show e1 env1 signals tick1
    = Ok (stress1, trace1, e1') ∧
    calculateStressWithTrace toFixed show e2 env2 signals tick2
    = Ok (stress2, trace2, e2') ∧
    scoreCore stress1 = scoreCore stress2 ∧
    traceCore trace1 = traceCore trace2 ∧
    (size (liquidityBuffer e1) = size (liquidityBuffer e2) →
     size (priceBuffer e1) = size (priceBuffer e2) →
     Env.now env1 0 = Env.now env2 0 →
     Env.now env1 1 = Env.now env2 1 →
     stress1 = stress2 ∧ trace1 = trace2).
Proof.
  intros Hprev. unfold calculateStressWithTrace. cbv zeta.
  rewrite <- Hprev.
  rewrite !divide_ok by (cbn; lra). cbn [mbind result_bind].
  destruct (mapR_weightContribution_ok (rawStress signals)
              (Signals.values signals)) as (wcs & -> & Hall).
  cbn [mbind result_bind].
  destruct (js_sort _ wcs) as [|dominant rest] eqn:Hsort.
  { apply (f_equal length) in Hsort. rewrite js_sort_length in Hsort.
    apply Forall2_length in Hall. cbn in Hall, Hsort. lia. }
  cbn [mbind result_bind mret result_ret].
  do 6 eexists. split; [reflexivity|]. split; [reflexivity|].
  split; [reflexivity|]. split; [reflexivity|].
  intros -> -> -> ->. done.
Qed.

(** *** Claims about the detector and the evaluators *)

(** C2: on every tick an event is emitted exactly when the level rank rose
    to STRESSED or above, or the aligned count rose with a score above 60;
    the stored level and count become the current ones either way.  In the
    sequence STABLE (10), STRESSED (65, 2 aligned), STRESSED (66, 2 aligned)
    the detector fires on the second call only. *)
Theorem critical_event_rule e env tick :
  (∃ out e',
     processTick toFixed show e env tick = Ok (out, e') ∧
     (is_Some (Output.criticalEvent out) ↔
      ((getStressRank (previousLevel e)
        < getStressRank (StressScore.level (Output.stress out)))%nat ∧
       (2 ≤ getStressRank (StressScore.level (Output.stress out)))%nat) ∨
      ((previousSignalsAligned e
        < StressScore.signals_aligned (Output.stress out))%nat ∧
       StressScore.score (Output.stress out) > 60)) ∧
     previousLevel e' = StressScore.level (Output.stress out) ∧
     previousSignalsAligned e'
     = StressScore.signals_aligned (Output.stress out)) ∧
  (∀ env2 env3 tick2 tick3 c1 c2 c3 n,
     let first := detectCriticalEvent show e env tick (stress_of STABLE 10 n) c1 in
     let second := detectCriticalEvent show first.2 env2 tick2
                     (stress_of STRESSED 65 2) c2 in
     let third := detectCriticalEvent show second.2 env3 tick3
                    (stress_of STRESSED 66 2) c3 in
     first.1 = None ∧ is_Some second.1 ∧ third.1 = None).
Proof.
  split.
  - destruct (processTick_ok e env tick)
      as (liq & fl & vol & fs & stress & trace & causal & _ & Htick & _).
    cbv zeta in Htick. eexists. eexists. split; [exact Htick|].
    cbn [Output.criticalEvent Output.stress].
    match type of Htick with
    | _ = Ok (_, (detectCriticalEvent _ ?e4 _ _ _ _).2) =>
        destruct (detectCriticalEvent_spec e4 env tick stress causal)
          as [Hiff ->]
    end.
    split; [exact Hiff|]. done.
  - intros env2 env3 tick2 tick3 c1 c2 c3 n. cbv zeta.
    destruct (detectCriticalEvent_spec e env tick (stress_of STABLE 10 n) c1)
      as [H1 ->].
    set (e1 := AnalyticsEngine.set_previous _ _ e).
    destruct (detectCriticalEvent_spec e1 env2 tick2
                (stress_of STRESSED 65 2) c2) as [H2 ->].
    set (e2 := AnalyticsEngine.set_previous _ _ e1).
    destruct (detectCriticalEvent_spec e2 env3 tick3
                (stress_of STRESSED 66 2) c3) as [H3 _].
    cbn in H1, H2, H3. split; [|split].
    + destruct (detectCriticalEvent _ e _ _ _ _).1; [|done].
      exfalso. destruct H1 as [[[_ ?]|[_ ?]] _]; [by eexists|lia|lra].
    + apply H2. left. lia.
    + destruct (detectCriticalEvent _ e2 _ _ _ _).1; [|done].
      exfalso. destruct H3 as [[[? _]|[? _]] _]; [by eexists|lia|lia].
Qed.

Lemma processVolatility_short e tick :
  (length (getAll (push (priceBuffer e) (Tick.price tick))) < 20)%nat →
  processVolatility toFixed e tick
  = Ok (defaultSignal VOLATILITY (Tick.processing_timestamp tick),
        AnalyticsEngine.set_priceBuffer
          (push (priceBuffer e) (Tick.price tick)) e).
Proof.
  intros Hlen. unfold processVolatility. cbv zeta.
  destruct (decide (_ < 20)%nat); [done|lia].
Qed.

Lemma processVolatility_full e tick :
  (20 ≤ length (getAll (push (priceBuffer e) (Tick.price tick))))%nat →
  ∃ sig,
    processVolatility toFixed e tick
    = Ok (sig, AnalyticsEngine.set_priceBuffer
                 (push (priceBuffer e) (Tick.price tick)) e) ∧
    SignalOutput.value sig
    = js_round (volatility_risk_guarded
                  (getAll (push (priceBuffer e) (Tick.price tick)))) ∧
    SignalOutput.triggered sig
    = bool_decide (volatility_risk_guarded
                     (getAll (push (priceBuffer e) (Tick.price tick))) > 55).
Proof.
  intros Hlen. unfold processVolatility. cbv zeta.
  destruct (decide (_ < 20)%nat); [lia|].
  rewrite volatility_ratio_ok by done. cbn [mbind result_bind].
  eexists. split; [reflexivity|]. done.
Qed.

Lemma processFlow_no_volume tick :
  Trades.buy_volume (Tick.trades tick) + Trades.sell_volume (Tick.trades tick)
  = 0 →
  processFlow toFixed tick
  = Ok (defaultSignal FLOW (Tick.processing_timestamp tick)).
Proof.
  intros Hvol. unfold processFlow. cbv zeta. destruct (decide (_ = 0)); done.
Qed.

Lemma processLiquidity_zero_baseline e tick :
  mean Some (push (liquidityBuffer e) (Tick.total_depth tick)) = Ok 0 →
  ∃ sig e', processLiquidity toFixed e tick = Ok (sig, e') ∧
            SignalOutput.value sig = 0 ∧
            SignalOutput.triggered sig = false.
Proof.
  intros Hmean. unfold processLiquidity. cbv zeta.
  rewrite Hmean. cbn [mbind result_bind].
  unfold liquidity_depthChange. destruct (decide (0 = 0)); [|done].
  cbn [mbind result_bind mret result_ret].
  unfold liquidity_risk. destruct (decide (0 >= 0)); [|lra].
  cbn [mbind result_bind mret result_ret].
  eexists. eexists. split; [reflexivity|]. cbn.
  split; [apply js_round_0|]. apply bool_decide_eq_false. lra.
Qed.


(** The first sample of a window is its own baseline. *)
Lemma first_sample_neutral e tick :
  buffer (liquidityBuffer e) = [] → head (liquidityBuffer e) = Some 0%nat →
  mean Some (push (liquidityBuffer e) (Tick.total_depth tick))
  = Ok (Tick.total_depth tick) ∧
  liquidity_depthChange (Tick.total_depth tick) (Tick.total_depth tick) = Ok 0 ∧
  liquidity_risk 0 = Ok 0 ∧
  ∃ sig e',
    processLiquidity toFixed e tick = Ok (sig, e') ∧
    SignalOutput.value sig = 0 ∧ SignalOutput.triggered sig = false.
Proof.
  intros Hbuf Hhead.
  assert (Hpush : buffer (push (liquidityBuffer e) (Tick.total_depth tick))
                  = [Tick.total_depth tick]).
  { unfold push. rewrite Hbuf, Hhead. cbn.
    destruct (decide (0 < maxSize _)%nat); done. }
  assert (Hmean : mean Some (push (liquidityBuffer e) (Tick.total_depth tick))
                  = Ok (Tick.total_depth tick)).
  { unfold mean. rewrite Hpush. cbn. rewrite divide_ok by lra.
    f_equal. unfold numeric. cbn. lra. }
  assert (Hchange : liquidity_depthChange (Tick.total_depth tick)
                      (Tick.total_depth tick) = Ok 0).
  { unfold liquidity_depthChange.
    destruct (decide (Tick.total_depth tick = 0)); [done|].
    rewrite divide_ok by done. cbn. f_equal. by field. }
  assert (Hrisk : liquidity_risk 0 = Ok 0).
  { unfold liquidity_risk. destruct (decide (0 >= 0)); [done|lra]. }
  repeat (split; [done|]).
  unfold processLiquidity. cbv zeta. rewrite Hmean. cbn [mbind result_bind].
  rewrite Hchange. cbn [mbind result_bind].
  rewrite Hrisk. cbn [mbind result_bind mret result_ret].
  eexists. eexists. split; [reflexivity|]. cbn.
  split; [apply js_round_0|]. apply bool_decide_eq_false. lra.
Qed.

(** C10: on the first tick after construction and on the first tick after
    a reset the baseline is the depth just pushed, the depth change and the
    liquidity risk are 0, and the liquidity signal of the tick has value 0
    and is not triggered. *)
Theorem first_tick_liquidity_neutral e0 env tick :
  let neutral e :=
    mean Some (push (liquidityBuffer e) (Tick.total_depth tick))
    = Ok (Tick.total_depth tick) ∧
    liquidity_depthChange (Tick.total_depth tick) (Tick.total_depth tick)
    = Ok 0 ∧
    liquidity_risk 0 = Ok 0 ∧
    ∃ out e',
      processTick toFixed show e env tick = Ok (out, e') ∧
      SignalOutput.value (Signals.liquidity (Output.signals out)) = 0 ∧
      SignalOutput.triggered (Signals.liquidity (Output.signals out)) = false in
  neutral newEngine ∧ neutral (reset e0).
Proof.
  cbv zeta.
  assert (∀ e, buffer (liquidityBuffer e) = [] →
               head (liquidityBuffer e) = Some 0%nat →
               ∃ out e',
                 processTick toFixed show e env tick = Ok (out, e') ∧
                 SignalOutput.value (Signals.liquidity (Output.signals out)) = 0 ∧
                 SignalOutput.triggered
                   (Signals.liquidity (Output.signals out)) = false) as Htick.
  { intros e Hbuf Hhead.
    destruct (first_sample_neutral e tick Hbuf Hhead)
      as (_ & _ & _ & sig & e1 & Hliq & Hval & Htrig).
    destruct (processTick_ok e env tick)
      as (liq & fl & vol & fs & stress & trace & causal
          & (Hliq' & _) & Htick & _).
    cbv zeta in *. rewrite Hliq in Hliq'. injection Hliq' as <- _.
    eexists. eexists. split; [exact Htick|]. done. }
  split.
  - destruct (first_sample_neutral newEngine tick) as (? & ? & ? & _);
      [done..|].
    repeat (split; [done|]). by apply Htick.
  - destruct (first_sample_neutral (reset e0) tick) as (? & ? & ? & _);
      [done..|].
    repeat (split; [done|]). by apply Htick.
Qed.

(** *** Claims about the tracker, the fallbacks and the score range *)

(** The chain and the history of a tick, from the signals of its output. *)
Lemma processTick_causal e env tick :
  ∃ out e',
    processTick toFixed show e env tick = Ok (out, e') ∧
    keyed (Output.signals out) ∧
    triggerOrder e'
    = nextOrder (λ k, Env.now env (2 + k)) (triggerOrder e)
                (Output.signals out) ∧
    CausalSequence.active (Output.causal out)
    = bool_decide (activeSignals (Output.signals out) ≠ 0%nat) ∧
    CausalSequence.steps (Output.causal out)
    = imap (causalStep (Output.stress out) (Output.signals out))
           (triggerOrder e') ∧
    (activeSignals (Output.signals out) = 0%nat →
     Output.causal out = inactiveChain).
Proof.
  destruct (processTick_ok e env tick)
    as (liq & fl & vol & fs & stress & trace & causal
        & (_ & _ & _ & _ & _ & Hbuild) & Htick & Hkey & _).
  cbv zeta in *.
  set (signals := {| Signals.liquidity := liq; Signals.flow := fl;
                     Signals.volatility := vol; Signals.forcedSelling := fs |})
    in *.
  match type of Hbuild with
  | buildCausalSequence _ ?e3 ?clock _ _ = _ =>
      destruct (buildCausalSequence_ok e3 clock stress signals)
        as (chain & Heq & Hactive & Hsteps & _ & Hinactive);
      change (triggerOrder e3) with (triggerOrder e) in *
  end.
  rewrite Heq in Hbuild. injection Hbuild as <-.
  match type of Htick with
  | context [(detectCriticalEvent _ ?e4 _ _ ?st ?ca).2] =>
      destruct (detectCriticalEvent_spec e4 env tick st ca) as [_ Hdet]
  end.
  rewrite Hdet in Htick.
  eexists. eexists. split; [exact Htick|]. done.
Qed.

Lemma processTicks_total e ticks :
  ∃ outs e', processTicks toFixed show e ticks = Ok (outs, e').
Proof.
  revert e. induction ticks as [|[env tick] rest IH]; intros e;
    [by eexists _, _|].
  destruct (processTick_causal e env tick) as (out & e1 & Htick & _).
  destruct (IH e1) as (outs & e' & Hrun).
  exists (out :: outs), e'. cbn [processTicks].
  rewrite Htick. cbn [mbind result_bind]. by rewrite Hrun.
Qed.

Lemma processTicks_absent e ticks x :
  absent x (triggerOrder e) →
  ∃ outs e',
    processTicks toFixed show e ticks = Ok (outs, e') ∧
    (Forall (λ out, SignalOutput.triggered
                      (Signals.get (Output.signals out) x) = false) outs →
     absent x (triggerOrder e')).
Proof.
  revert e. induction ticks as [|[env tick] rest IH]; intros e Habs.
  - by exists [], e.
  - destruct (processTick_causal e env tick)
      as (out & e1 & Htick & _ & Horder & _).
    destruct (decide (SignalOutput.triggered
                        (Signals.get (Output.signals out) x) = false))
      as [Hquiet|Hloud].
    + destruct (IH e1) as (outs & e' & Hrun & Hrest).
      { rewrite Horder. by apply nextOrder_absent. }
      exists (out :: outs), e'. cbn [processTicks].
      rewrite Htick. cbn [mbind result_bind]. rewrite Hrun. split; [done|].
      intros Hall. apply Hrest. by apply Forall_cons in Hall as [_ ?].
    + destruct (processTicks_total e1 rest) as (outs & e' & Hrun).
      exists (out :: outs), e'. cbn [processTicks].
      rewrite Htick. cbn [mbind result_bind]. rewrite Hrun. split; [done|].
      intros Hall. by apply Forall_cons in Hall as [? _].
Qed.

(** C6: a call with no triggered signal returns the inactive chain (not
    active, no step, no catalyst) and empties the trigger history; when a
    signal [x] triggers again on a later call, whatever the calls in between
    on which it stayed untriggered, the chain has a step for [x] and every
    such step carries a clock reading of that later call.  First for the
    tracker on any map that holds [x] under its own name, then for whole
    ticks. *)
Theorem causal_chain_clears_and_restarts e x :
  (∀ clock0 stress0 quiet later clock stress signals,
     activeSignals quiet = 0%nat →
     Forall (λ '(_, _, sg), SignalOutput.triggered (Signals.get sg x) = false)
            later →
     SignalOutput.triggered (Signals.get signals x) = true →
     SignalOutput.name (Signals.get signals x) = x →
     ∃ chain0 e1 e2 chain e3,
       buildCausalSequence show e clock0 stress0 quiet = Ok (chain0, e1) ∧
       CausalSequence.active chain0 = false ∧
       CausalSequence.steps chain0 = [] ∧
       CausalSequence.catalyst_id chain0 = None ∧
       triggerOrder e1 = [] ∧
       trackSequence show e1 later = Ok e2 ∧
       buildCausalSequence show e2 clock stress signals = Ok (chain, e3) ∧
       CausalSequence.active chain = true ∧
       (∃ step, step ∈ CausalSequence.steps chain ∧
                CausalStep.signal step = x) ∧
       (∀ step, step ∈ CausalSequence.steps chain →
                CausalStep.signal step = x →
                ∃ k, CausalStep.timestamp step = clock k)) ∧
  (∀ env0 tick0 later env tick,
     ∃ out0 e1 outs e2 out e3,
       processTick toFixed show e env0 tick0 = Ok (out0, e1) ∧
       processTicks toFixed show e1 later = Ok (outs, e2) ∧
       processTick toFixed show e2 env tick = Ok (out, e3) ∧
       (activeSignals (Output.signals out0) = 0%nat →
        (CausalSequence.active (Output.causal out0) = false ∧
         CausalSequence.steps (Output.causal out0) = [] ∧
         CausalSequence.catalyst_id (Output.causal out0) = None ∧
         triggerOrder e1 = []) ∧
        (Forall (λ o, SignalOutput.triggered
                        (Signals.get (Output.signals o) x) = false) outs →
         SignalOutput.triggered (Signals.get (Output.signals out) x) = true →
         CausalSequence.active (Output.causal out) = true ∧
         (∃ step, step ∈ CausalSequence.steps (Output.causal out) ∧
                  CausalStep.signal step = x) ∧
         (∀ step, step ∈ CausalSequence.steps (Output.causal out) →
                  CausalStep.signal step = x →
                  ∃ k, CausalStep.timestamp step = Env.now env (2 + k))))).
Proof.
  split.
  - intros clock0 stress0 quiet later clock stress signals
      Hquiet Hlater Htrig Hname.
    destruct (buildCausalSequence_ok e clock0 stress0 quiet)
      as (chain0 & Hbuild0 & _ & _ & _ & Hinactive).
    specialize (Hinactive Hquiet) as ->.
    assert (nextOrder clock0 (triggerOrder e) quiet = []) as Hempty.
    { unfold nextOrder. by rewrite decide_True. }
    rewrite Hempty in Hbuild0.
    set (e1 := AnalyticsEngine.set_triggerOrder [] e) in *.
    destruct (trackSequence_absent e1 later x) as (e2 & Htrack & Habs);
      [by intros t Ht%elem_of_nil|done|].
    destruct (buildCausalSequence_ok e2 clock stress signals)
      as (chain & Hbuild & Hactive & Hsteps & _).
    destruct (nextOrder_fresh clock (triggerOrder e2) signals x Habs Htrig Hname)
      as ((t & Ht & Hsig) & Hfresh).
    exists inactiveChain, e1, e2, chain. eexists.
    split; [exact Hbuild0|]. do 4 (split; [done|]).
    split; [exact Htrack|]. split; [exact Hbuild|].
    split.
    { rewrite Hactive. apply bool_decide_eq_true.
      by apply (active_signal_counts signals x). }
    rewrite Hsteps. split.
    + apply list_elem_of_lookup in Ht as [i Hi].
      exists (causalStep stress signals i t). split; [|done].
      apply elem_of_lookup_imap. by exists i, t.
    + intros step (i & t' & -> & Hi)%elem_of_lookup_imap Hx. cbn in Hx |- *.
      apply (Hfresh t'); [|done]. by apply list_elem_of_lookup_2 in Hi.
  - intros env0 tick0 later env tick.
    destruct (processTick_causal e env0 tick0)
      as (out0 & e1 & Htick0 & _ & Horder0 & _ & _ & Hinactive).
    destruct (decide (activeSignals (Output.signals out0) = 0%nat))
      as [Hquiet|Hloud]; last first.
    { destruct (processTicks_total e1 later) as (outs & e2 & Hrun).
      destruct (processTick_causal e2 env tick) as (out & e3 & Htick & _).
      exists out0, e1, outs, e2, out, e3. by repeat (split; [done|]). }
    assert (triggerOrder e1 = []) as Hempty.
    { rewrite Horder0. unfold nextOrder. by rewrite decide_True. }
    destruct (processTicks_absent e1 later x) as (outs & e2 & Hrun & Habs).
    { rewrite Hempty. by intros t Ht%elem_of_nil. }
    destruct (processTick_causal e2 env tick)
      as (out & e3 & Htick & Hkey & Horder & Hactive & Hsteps & _).
    exists out0, e1, outs, e2, out, e3. do 3 (split; [done|]).
    intros _. split.
    { rewrite (Hinactive Hquiet). done. }
    intros Hlater Htrig.
    destruct (nextOrder_fresh (λ k, Env.now env (2 + k)) (triggerOrder e2)
                (Output.signals out) x (Habs Hlater) Htrig (Hkey x))
      as ((t & Ht & Hsig) & Hfresh).
    rewrite <- Horder in Ht, Hfresh.
    split.
    { rewrite Hactive. apply bool_decide_eq_true.
      by apply (active_signal_counts _ x). }
    rewrite Hsteps. split.
    + apply list_elem_of_lookup in Ht as [i Hi].
      exists (causalStep (Output.stress out) (Output.signals out) i t).
      split; [|done]. apply elem_of_lookup_imap. by exists i, t.
    + intros step (i & t' & -> & Hi)%elem_of_lookup_imap Hx. cbn in Hx |- *.
      apply (Hfresh t'); [|done]. by apply list_elem_of_lookup_2 in Hi.
Qed.

(** C7: no call of [processTick] faults, so no exception is raised and no
    division meets a zero denominator anywhere in the pipeline; a tick
    without volume gets the default flow signal, a zero baseline gives a
    liquidity signal of value 0, a price window of fewer than 20 samples
    gives the default volatility signal; the default signal has value 0,
    LOW confidence and is untriggered.  The remainder that advances a window
    cursor has the capacity for divisor: the windows of a new or reset
    engine have numeric cursors and non-zero capacities, and a tick keeps
    them so. *)
Theorem degenerate_inputs_fall_back e env tick :
  (∃ out e', processTick toFixed show e env tick = Ok (out, e')) ∧
  (Trades.buy_volume (Tick.trades tick) + Trades.sell_volume (Tick.trades tick)
   = 0 →
   processFlow toFixed tick
   = Ok (defaultSignal FLOW (Tick.processing_timestamp tick))) ∧
  (mean Some (push (liquidityBuffer e) (Tick.total_depth tick)) = Ok 0 →
   ∃ sig e', processLiquidity toFixed e tick = Ok (sig, e') ∧
             SignalOutput.value sig = 0 ∧
             SignalOutput.triggered sig = false) ∧
  ((length (getAll (push (priceBuffer e) (Tick.price tick))) < 20)%nat →
   ∃ e', processVolatility toFixed e tick
         = Ok (defaultSignal VOLATILITY (Tick.processing_timestamp tick), e')) ∧
  (∀ name ts,
     SignalOutput.value (defaultSignal name ts) = 0 ∧
     SignalOutput.confidence (defaultSignal name ts) = LOW ∧
     SignalOutput.triggered (defaultSignal name ts) = false) ∧
  (numeric_cursor (liquidityBuffer newEngine) ∧
   numeric_cursor (priceBuffer newEngine) ∧
   numeric_cursor (liquidityBuffer (reset newEngine)) ∧
   numeric_cursor (priceBuffer (reset newEngine))) ∧
  (numeric_cursor (liquidityBuffer e) → numeric_cursor (priceBuffer e) →
   ∀ out e', processTick toFixed show e env tick = Ok (out, e') →
             numeric_cursor (liquidityBuffer e') ∧
             numeric_cursor (priceBuffer e')).
Proof.
  split; [|split; [|split; [|split; [|split; [|split]]]]].
  - destruct (processTick_ok e env tick)
      as (liq & fl & vol & fs & stress & trace & causal & _ & Htick & _).
    eexists. eexists. exact Htick.
  - apply processFlow_no_volume.
  - apply processLiquidity_zero_baseline.
  - intros Hlen. eexists. by apply processVolatility_short.
  - done.
  - repeat split; (done || by eexists).
  - intros Hliq Hprice out e' Htick.
    destruct (processTick_windows e env tick out e' Htick) as (-> & -> & _).
    split; by apply push_numeric_cursor.
Qed.





(** *** A first tick without volume *)

(** On a first tick without trade volume only the forced-selling signal can
    be off zero: the raw score is 0.15 times its value. *)
Lemma quiet_first_tick e env tick :
  buffer (liquidityBuffer e) = [] → head (liquidityBuffer e) = Some 0%nat →
  (length (getAll (push (priceBuffer e) (Tick.price tick))) < 20)%nat →
  Trades.buy_volume (Tick.trades tick) + Trades.sell_volume (Tick.trades tick)
  = 0 →
  ¬ Rmin 100 (totalLargeVol tick / 5 * 100) > 45 →
  ∃ out e',
    processTick toFixed show e env tick = Ok (out, e') ∧
    rawStress (Output.signals out)
    = js_round (Rmin 100 (totalLargeVol tick / 5 * 100)) * 0.15 ∧
    activeSignals (Output.signals out) = 0%nat ∧
    previousStress e' = smoothedStress (Output.signals out) (previousStress e) ∧
    StressScore.score (Output.stress out) = js_round (previousStress e') ∧
    liquidityBuffer e' = push (liquidityBuffer e) (Tick.total_depth tick) ∧
    priceBuffer e' = push (priceBuffer e) (Tick.price tick).
Proof.
  intros Hbuf Hhead Hshort Hvol Hcalm.
  destruct (processTick_ok e env tick)
    as (liq & fl & vol & fs & stress & trace & causal
        & (Hliq & Hfl & Hvo & Hfs & Hcalc & _) & Htick & _).
  cbv zeta in *.
  destruct (first_sample_neutral e tick Hbuf Hhead)
    as (_ & _ & _ & liq' & e1 & Hliq' & Vliq & Tliq).
  rewrite Hliq' in Hliq. injection Hliq as -> _.
  rewrite (processFlow_no_volume tick Hvol) in Hfl. injection Hfl as <-.
  rewrite processVolatility_short in Hvo by done. injection Hvo as <-.
  destruct (processForcedSelling_ok tick) as (fs' & Hfs' & _ & Vfs & Tfs).
  rewrite Hfs' in Hfs. injection Hfs as ->.
  set (signals := {| Signals.liquidity := liq;
                     Signals.flow := defaultSignal FLOW _;
                     Signals.volatility := defaultSignal VOLATILITY _;
                     Signals.forcedSelling := fs |}) in *.
  match type of Hcalc with
  | calculateStressWithTrace _ _ ?e2 _ _ _ = _ =>
      destruct (calculateStressWithTrace_ok e2 env signals tick)
        as (stress' & trace' & Heq & _ & (Hscore & _) & _);
      change (previousStress e2) with (previousStress e) in *
  end.
  rewrite Heq in Hcalc. injection Hcalc as <- <-.
  match type of Htick with
  | context [(detectCriticalEvent _ ?e4 _ _ ?st ?ca).2] =>
      destruct (detectCriticalEvent_spec e4 env tick st ca) as [_ Hdet]
  end.
  rewrite Hdet in Htick.
  eexists. eexists. split; [exact Htick|].
  cbn [Output.signals Output.stress]. fold signals.
  split; [|split; [|split; [done|split; [done|done]]]].
  - unfold rawStress, weights, signals. cbn [Signals.get Signals.liquidity
      Signals.flow Signals.volatility Signals.forcedSelling].
    rewrite Vliq, Vfs. cbn [SignalOutput.value defaultSignal]. lra.
  - unfold activeSignals, Signals.values, signals.
    cbn [Signals.liquidity Signals.flow Signals.volatility
         Signals.forcedSelling].
    rewrite !filter_cons_False; [done|..].
    + rewrite Tfs. by rewrite bool_decide_eq_false_2.
    + done.
    + done.
    + by rewrite Tliq.
Qed.
End EngineFacts.

(** *** Concrete runs *)

Lemma pushes_filling {T : Type} (n : nat) (xs : list T) :
  (length xs ≤ n)%nat →
  pushes (newBuffer n) xs
  = {| buffer := xs; maxSize := n; head := Some 0%nat |}.
Proof.
  induction xs as [|x xs IH] using rev_ind; intros Hlen; [done|].
  rewrite length_app in Hlen. cbn in Hlen.
  unfold pushes in *. rewrite foldl_snoc, IH by lia.
  unfold push. cbn. destruct (decide (length xs < n)%nat); [done|lia].
Qed.

Lemma getAll_unwrapped {T : Type} (n : nat) (xs : list T) :
  getAll {| buffer := xs; maxSize := n; head := Some 0%nat |} = xs.
Proof.
  destruct xs as [|x xs]; [done|].
  rewrite (getAll_rotation _ 0) by (done || (cbn; lia)).
  cbn. by rewrite app_nil_r.
Qed.

(** Without a triggered signal and with a target that does not exceed the
    previous score, the score decays at alpha 0.15. *)
Lemma smoothedStress_decay signals prev :
  activeSignals signals = 0%nat →
  rawStress signals <= prev → rawStress signals <= 100 →
  smoothedStress signals prev = 0.15 * rawStress signals + 0.85 * prev.
Proof.
  intros Hact Hle Hcap.
  assert (targetStress signals = rawStress signals) as Htarget.
  { unfold targetStress, shockMultiplier. rewrite Hact. cbn [INR].
    rewrite Rmin_100; lra. }
  unfold smoothedStress, smoothingAlpha. cbv zeta. rewrite Htarget.
  destruct (decide (_ > _)); lra.
Qed.

Lemma scenario_B_aggregation_witness :
  ∃ stress trace e',
    calculateStressWithTrace plain_toFixed plain_show newEngine (clock_from 0)
      scenarioB quiet_tick
    = Ok (stress, trace, e') ∧
    DecisionTrace.raw_score trace = 28.0 ∧
    DecisionTrace.signals_aligned trace = 1%nat ∧
    DecisionTrace.shock_multiplier trace = 1.08 ∧
    DecisionTrace.pre_smooth_score trace = 30.24 ∧
    DecisionTrace.smoothing_alpha trace = 0.35 ∧
    previousStress e' = 10.584 ∧
    DecisionTrace.final_score trace = 11 ∧
    StressScore.score stress = 11 ∧
    StressScore.level stress = STABLE.
Proof.
  apply scenario_B_aggregation; reflexivity.
Defined.

Lemma trace_sum_identity_witness :
  keyed scenarioB ∧
  ∃ stress trace e',
    calculateStressWithTrace plain_toFixed plain_show newEngine (clock_from 0)
      scenarioB quiet_tick = Ok (stress, trace, e') ∧
    sumR (WeightContribution.contribution
            <$> DecisionTrace.weight_contributions trace)
    = DecisionTrace.raw_score trace.
Proof.
  assert (keyed scenarioB) as Hkey by (by intros []).
  split; [exact Hkey|].
  destruct (trace_sum_identity plain_toFixed plain_show newEngine
              (clock_from 0) quiet_tick scenarioB)
    as [(stress & trace & e' & Heq & _ & Hsum) _].
  exists stress, trace, e'. split; [exact Heq|]. exact (Hsum Hkey).
Defined.

Lemma choppy_window_prices : choppy_window = prices19 ++ [99.3].
Proof.
  unfold choppy_window, engine_with_prices.
  cbn [priceBuffer AnalyticsEngine.set_priceBuffer].
  change (push (pushes (newBuffer 300) prices19) (Tick.price choppy_tick))
    with (pushes (newBuffer 300) (prices19 ++ [99.3])).
  rewrite pushes_filling by (cbn; lia). apply getAll_unwrapped.
Qed.

Lemma choppy_window_long : population_stddev choppy_window = 0.5.
Proof.
  rewrite choppy_window_prices.
  unfold population_stddev, arithmetic_mean, sumR, prices19.
  cbn [app length fmap list_fmap foldl].
  replace (INR 20) with 20 by (cbn [INR]; lra).
  cbn [pow].
  match goal with |- sqrt ?x = _ => replace x with (0.5 * 0.5) by lra end.
  apply sqrt_square. lra.
Qed.

Lemma choppy_window_short :
  population_stddev (slice_last 10 choppy_window) = 0.7.
Proof.
  rewrite choppy_window_prices.
  unfold population_stddev, arithmetic_mean, sumR, prices19, slice_last.
  cbn [app length drop Nat.sub fmap list_fmap foldl].
  replace (INR 10) with 10 by (cbn [INR]; lra).
  cbn [pow].
  match goal with |- sqrt ?x = _ => replace x with (0.7 * 0.7) by lra end.
  apply sqrt_square. lra.
Qed.



Lemma calculateStressWithTrace_reasons
    toFixed show e env signals tick stress trace e' :
  calculateStressWithTrace toFixed show e env signals tick
  = Ok (stress, trace, e') →
  DecisionTrace.confidence_reasons trace !! 0%nat
  = Some (LIQUIDITY, show (INR (size (liquidityBuffer e)))
                     +:+ " depth samples (need ≥60 for HIGH)").
Proof.
  unfold calculateStressWithTrace. cbv zeta.
  rewrite divide_ok by (cbn; lra). cbn [mbind result_bind].
  destruct (mapR _ _) as [wcs|]; [|done]. cbn [mbind result_bind].
  destruct (js_sort _ wcs); [done|].
  cbn [mbind result_bind mret result_ret]. by intros [= <- <- <-].
Qed.

Lemma plain_show_nat (n : nat) : plain_show (INR n) = pretty (Z.of_nat n).
Proof.
  unfold plain_show. rewrite INR_IZR_INZ.
  assert (Int_part (IZR (Z.of_nat n)) = Z.of_nat n) as ->
    by (apply floor_unique; lra).
  by rewrite decide_True.
Qed.

Lemma first_window_short (e : AnalyticsEngine.t) (p : R) :
  priceBuffer e = newBuffer 300 →
  (length (getAll (push (priceBuffer e) p)) < 20)%nat.
Proof.
  intros ->. change (push (newBuffer 300) p) with (pushes (newBuffer 300) [p]).
  rewrite pushes_filling, getAll_unwrapped; cbn; lia.
Qed.

Lemma after_quiet_tick_state :
  previousStress after_quiet_tick = 0 ∧
  size (liquidityBuffer after_quiet_tick) = 1%nat.
Proof.
  destruct (quiet_first_tick plain_toFixed plain_show newEngine (clock_from 0)
              quiet_tick)
    as (out & e' & Htick & Hraw & Hact & Hprev & _ & Hliq & _).
  - done.
  - done.
  - by apply first_window_short.
  - cbn. lra.
  - change (totalLargeVol quiet_tick) with 0. rewrite Rmin_100; lra.
  - unfold after_quiet_tick. rewrite Htick. split.
    + change (totalLargeVol quiet_tick) with 0 in Hraw.
      replace (Rmin 100 (0 / 5 * 100)) with 0 in Hraw by (rewrite Rmin_100; lra).
      rewrite js_round_0 in Hraw.
      rewrite Hprev, smoothedStress_decay; rewrite ?Hraw; cbn; try done; lra.
    + by rewrite Hliq.
Qed.

Lemma aggregation_deterministic_witness :
  previousStress newEngine = previousStress newEngine ∧
  ∃ stress1 trace1 e1' stress2 trace2 e2',
    calculateStressWithTrace plain_toFixed plain_show newEngine (clock_from 0)
      scenarioB quiet_tick = Ok (stress1, trace1, e1') ∧
    calculateStressWithTrace plain_toFixed plain_show newEngine
      (clock_from 1000) scenarioB quiet_tick = Ok (stress2, trace2, e2') ∧
    scoreCore stress1 = scoreCore stress2 ∧
    traceCore trace1 = traceCore trace2 ∧
    (size (liquidityBuffer newEngine) = size (liquidityBuffer newEngine) →
     size (priceBuffer newEngine) = size (priceBuffer newEngine) →
     Env.now (clock_from 0) 0 = Env.now (clock_from 1000) 0 →
     Env.now (clock_from 0) 1 = Env.now (clock_from 1000) 1 →
     stress1 = stress2 ∧ trace1 = trace2).
Proof.
  split; [reflexivity|].
  apply (aggregation_deterministic plain_toFixed plain_show newEngine newEngine
           (clock_from 0) (clock_from 1000) scenarioB quiet_tick quiet_tick).
  reflexivity.
Defined.

(** C4 as stated fails: with the same signals and the same previous score
    the trace differs when the clock differs, and when the liquidity window
    holds a different number of samples. *)
Lemma aggregation_reads_clock_and_fill :
  previousStress newEngine = previousStress after_quiet_tick ∧
  reported (calculateStressWithTrace plain_toFixed plain_show newEngine
              (clock_from 0) scenarioB quiet_tick)
  ≠ reported (calculateStressWithTrace plain_toFixed plain_show newEngine
                (clock_from 1000) scenarioB quiet_tick) ∧
  reported (calculateStressWithTrace plain_toFixed plain_show newEngine
              (clock_from 0) scenarioB quiet_tick)
  ≠ reported (calculateStressWithTrace plain_toFixed plain_show
                after_quiet_tick (clock_from 0) scenarioB quiet_tick).
Proof.
  destruct after_quiet_tick_state as [Hprev Hsize].
  split; [by rewrite Hprev|].
  destruct (calculateStressWithTrace_ok plain_toFixed plain_show newEngine
              (clock_from 0) scenarioB quiet_tick)
    as (s0 & t0 & H0 & (_ & _ & _ & _ & _ & _ & _ & Hts0) & _).
  destruct (calculateStressWithTrace_ok plain_toFixed plain_show newEngine
              (clock_from 1000) scenarioB quiet_tick)
    as (s1 & t1 & H1 & (_ & _ & _ & _ & _ & _ & _ & Hts1) & _).
  destruct (calculateStressWithTrace_ok plain_toFixed plain_show
              after_quiet_tick (clock_from 0) scenarioB quiet_tick)
    as (s2 & t2 & H2 & _).
  pose proof (calculateStressWithTrace_reasons _ _ _ _ _ _ _ _ _ H0) as Hr0.
  pose proof (calculateStressWithTrace_reasons _ _ _ _ _ _ _ _ _ H2) as Hr2.
  rewrite H0, H1, H2. cbn [reported]. split.
  - intros [= _ Ht]. rewrite Ht, Hts1 in Hts0. cbn in Hts0. lra.
  - intros [= _ Ht]. rewrite Ht, Hr2 in Hr0. rewrite Hsize in Hr0.
    cbn [size newEngine liquidityBuffer newBuffer buffer length] in Hr0.
    rewrite !plain_show_nat in Hr0. discriminate Hr0.
Qed.

Lemma causal_chain_clears_and_restarts_witness :
  activeSignals quiet_signals = 0%nat ∧
  ∃ chain0 e1 e2 chain e3,
    buildCausalSequence plain_show newEngine (λ k, INR k) (stress_of STABLE 0 0)
      quiet_signals = Ok (chain0, e1) ∧
    CausalSequence.active chain0 = false ∧
    CausalSequence.steps chain0 = [] ∧
    CausalSequence.catalyst_id chain0 = None ∧
    triggerOrder e1 = [] ∧
    trackSequence plain_show e1
      [((λ k, 500 + INR k), stress_of STABLE 0 0, quiet_signals)] = Ok e2 ∧
    buildCausalSequence plain_show e2 (λ k, 1000 + INR k)
      (stress_of STABLE 11 1) scenarioB = Ok (chain, e3) ∧
    CausalSequence.active chain = true ∧
    (∃ step, step ∈ CausalSequence.steps chain ∧
             CausalStep.signal step = LIQUIDITY) ∧
    (∀ step, step ∈ CausalSequence.steps chain →
             CausalStep.signal step = LIQUIDITY →
             ∃ k, CausalStep.timestamp step = 1000 + INR k).
Proof.
  split; [reflexivity|].
  apply (proj1 (causal_chain_clears_and_restarts plain_toFixed plain_show
                  newEngine LIQUIDITY)
           (λ k, INR k) (stress_of STABLE 0 0) quiet_signals
           [((λ k, 500 + INR k), stress_of STABLE 0 0, quiet_signals)]
           (λ k, 1000 + INR k) (stress_of STABLE 11 1) scenarioB).
  - reflexivity.
  - repeat constructor.
  - reflexivity.
  - reflexivity.
Defined.

Lemma degenerate_inputs_fall_back_witness :
  Trades.buy_volume (Tick.trades quiet_tick)
  + Trades.sell_volume (Tick.trades quiet_tick) = 0 ∧
  processFlow plain_toFixed quiet_tick
  = Ok (defaultSignal FLOW (Tick.processing_timestamp quiet_tick)) ∧
  (∃ sig e', processLiquidity plain_toFixed newEngine quiet_tick = Ok (sig, e') ∧
             SignalOutput.value sig = 0 ∧
             SignalOutput.triggered sig = false) ∧
  (∃ e', processVolatility plain_toFixed newEngine quiet_tick
         = Ok (defaultSignal VOLATILITY (Tick.processing_timestamp quiet_tick),
               e')).
Proof.
  destruct (degenerate_inputs_fall_back plain_toFixed plain_show newEngine
              (clock_from 0) quiet_tick) as (_ & Hflow & Hliq & Hvol & _).
  assert (Trades.buy_volume (Tick.trades quiet_tick)
          + Trades.sell_volume (Tick.trades quiet_tick) = 0) as Hquiet
    by (cbn; lra).
  split; [exact Hquiet|]. split; [exact (Hflow Hquiet)|]. split.
  - apply Hliq.
    exact (proj1 (first_sample_neutral plain_toFixed newEngine quiet_tick
                    eq_refl eq_refl)).
  - apply Hvol. by apply first_window_short.
Defined.



(** * Further properties of the code *)

(** *** The ring: its cursor, [getLast] and the statistics *)

Section CircularBufferReads.
Context {T : Type}.
Implicit Types (b : CircularBuffer T) (xs : list T).

(** Reading a list from position [h] round to [h]. *)
Lemma rotation_lookup (l : list T) (h j : nat) :
  (h < length l)%nat → (j < length l)%nat →
  (drop h l ++ take h l) !! j = l !! ((h + j) mod length l)%nat.
Proof.
  intros Hh Hj. destruct (decide (h + j < length l)%nat) as [Hin|Hout].
  - rewrite Nat.mod_small by done.
    rewrite lookup_app_l by (rewrite length_drop; lia).
    by rewrite lookup_drop.
  - replace ((h + j) mod length l)%nat with (h + j - length l)%nat.
    + rewrite lookup_app_r by (rewrite length_drop; lia).
      rewrite length_drop, lookup_take_lt by lia. f_equal. lia.
    + apply Nat.mod_unique with (q := 1%nat); lia.
Qed.

(** The cursor after the pushes [xs]: it starts to move with the first
    overwrite and then counts the overwrites modulo the capacity. *)
Lemma head_pushes (N : nat) xs :
  (1 ≤ N)%nat →
  head (pushes (newBuffer N) xs) = Some ((length xs - N) mod N)%nat.
Proof.
  intros HN. induction xs as [|x xs IH] using rev_ind.
  - cbn. by rewrite Nat.Div0.mod_0_l.
  - destruct (ring_inv_pushes N xs ltac:(lia)) as (Hmax & h & Hh & _ & Hlen & _).
    unfold pushes in *. rewrite foldl_snoc. unfold push at 1.
    rewrite Hmax, Hlen, Hh. rewrite Hh in IH. injection IH as ->.
    rewrite length_app. cbn [length].
    destruct (decide (length xs `min` N < N)%nat) as [Hroom|Hfull];
      cbn [head].
    + replace (length xs + 1 - N)%nat with 0%nat by lia.
      replace (length xs - N)%nat with 0%nat by lia. done.
    + unfold js_mod. destruct (decide (N = 0%nat)); [lia|]. f_equal.
      rewrite Nat.Div0.add_mod_idemp_l. f_equal. lia.
Qed.

(** Below the fill of the window, [getLast(n)] reads backwards from the
    cursor: the [n] items pushed last, oldest first. *)
Lemma getLast_below (N : nat) xs (n : nat) :
  (1 ≤ N)%nat → (n < size (pushes (newBuffer N) xs))%nat →
  getLast (pushes (newBuffer N) xs) n = drop (length xs - n) xs.
Proof.
  intros HN Hn.
  destruct (ring_inv_pushes N xs ltac:(lia))
    as (Hmax & h & Hh & Hlt & Hlen & Hz & Hrot).
  set (b := pushes (newBuffer N) xs) in *.
  unfold getLast. destruct (decide (size b ≤ n)%nat); [lia|].
  rewrite Hh. unfold size in *.
  set (D := drop (length xs - n) xs).
  assert (HD : length D = n).
  { unfold D. rewrite length_drop. lia. }
  assert (Hh' : (h < length (buffer b))%nat).
  { destruct (decide (length xs < N)%nat); [rewrite Hz by done|]; lia. }
  rewrite <- (rev_involutive D). f_equal.
  rewrite <- (omap_seq_lookup (rev D)
                (λ i, buffer b !! ((h + length (buffer b) - 1 - i)
                                   mod length (buffer b))%nat) 0);
    [by rewrite length_rev, HD|].
  intros i Hi. rewrite length_rev, HD in Hi. cbn [Nat.add].
  rewrite rev_alt. change (rev_append D []) with (reverse D).
  rewrite reverse_lookup by lia. rewrite HD. unfold D.
  rewrite lookup_drop.
  replace (h + length (buffer b) - 1 - i)%nat
    with (h + (length (buffer b) - 1 - i))%nat by lia.
  rewrite <- rotation_lookup by lia. rewrite Hrot, lookup_drop.
  f_equal. lia.
Qed.

(** The array itself is the window turned back by the cursor. *)
Lemma buffer_rotation (N : nat) xs :
  (1 ≤ N)%nat →
  let b := pushes (newBuffer N) xs in
  let h := ((length xs - N) mod N)%nat in
  let window := drop (length xs - N) xs in
  buffer b = drop (size b - h) window ++ take (size b - h) window.
Proof.
  intros HN b h window.
  destruct (ring_inv_pushes N xs ltac:(lia))
    as (Hmax & h' & Hh & Hlt & Hlen & Hz & Hrot).
  rewrite head_pushes in Hh by done. injection Hh as <-.
  fold b in Hmax, Hlen, Hrot. fold h in Hlt, Hz, Hrot.
  assert (Hh' : (h ≤ length (buffer b))%nat).
  { destruct (decide (length xs < N)%nat); [rewrite Hz by done|]; lia. }
  unfold window, size. rewrite <- Hrot.
  rewrite drop_app_length', take_app_length' by (rewrite length_drop; lia).
  by rewrite take_drop.
Qed.
End CircularBufferReads.

Section CircularBufferWindow.
Context {T : Type}.
Implicit Types (b : CircularBuffer T) (xs : list T).

(** [getAll] after any pushes is the window: the last [N] items pushed,
    oldest first. *)
Lemma getAll_pushes (N : nat) xs :
  (1 ≤ N)%nat → getAll (pushes (newBuffer N) xs) = drop (length xs - N) xs.
Proof.
  intros HN.
  destruct (ring_inv_pushes N xs ltac:(lia))
    as (Hmax & h & Hh & Hlt & Hlen & Hz & Hrot).
  destruct xs as [|x xs]; [done|].
  rewrite (getAll_rotation _ h); [done..|].
  unfold size. rewrite Hlen. cbn [length] in *.
  destruct (decide (S (length xs) < N)%nat); [rewrite Hz by done|]; lia.
Qed.

(** X1: [getLast(n)] with [n] below the fill of the window returns the [n]
    items pushed last, in the order they were pushed. *)
Theorem getLast_returns_most_recent (N : nat) xs (n : nat) :
  (1 ≤ N)%nat → (n < size (pushes (newBuffer N) xs))%nat →
  getLast (pushes (newBuffer N) xs) n = drop (length xs - n) xs ∧
  length (getLast (pushes (newBuffer N) xs) n) = n ∧
  getLast (pushes (newBuffer N) xs) n
  = drop (size (pushes (newBuffer N) xs) - n) (getAll (pushes (newBuffer N) xs)).
Proof.
  intros HN Hn. rewrite getLast_below, getAll_pushes by done.
  destruct (ring_inv_pushes N xs ltac:(lia)) as (_ & h & _ & _ & Hlen & _).
  unfold size in *. rewrite Hlen in *.
  split; [done|]. split; [rewrite length_drop; lia|].
  rewrite drop_drop. f_equal. lia.
Qed.

(** X2: [getLast(n)] with [n] at or above the fill returns a copy of the
    array in storage order.  Once the window has wrapped, that is the
    window turned back by the cursor: the items written since the last wrap
    come first, the oldest items last.  It is the chronological window of
    [getAll] exactly when the cursor stands at 0. *)
Theorem getLast_whole_window_in_storage_order (N : nat) xs (n : nat) :
  (1 ≤ N)%nat → (size (pushes (newBuffer N) xs) ≤ n)%nat →
  let b := pushes (newBuffer N) xs in
  let h := ((length xs - N) mod N)%nat in
  head b = Some h ∧
  getLast b n = buffer b ∧
  getLast b n = drop (size b - h) (getAll b) ++ take (size b - h) (getAll b) ∧
  (h = 0%nat → getLast b n = getAll b).
Proof.
  intros HN Hn b h.
  assert (Hlast : getLast b n = buffer b).
  { unfold getLast. by destruct (decide (size b ≤ n)%nat). }
  split; [by apply head_pushes|]. split; [done|].
  rewrite Hlast.
  assert (Hall : getAll b = drop (length xs - N) xs) by by apply getAll_pushes.
  rewrite Hall.
  pose proof (buffer_rotation N xs HN) as Hrot. cbn zeta in Hrot.
  fold b h in Hrot. split; [done|].
  intros H0. rewrite Hrot at 1. rewrite H0, Nat.sub_0_r.
  destruct (ring_inv_pushes N xs ltac:(lia)) as (_ & h' & _ & _ & Hlen & _).
  fold b in Hlen. unfold size. rewrite Hlen.
  rewrite drop_ge, take_ge by (rewrite length_drop; lia). done.
Qed.
End CircularBufferWindow.

Lemma getLast_returns_most_recent_witness :
  (1 ≤ 3)%nat ∧ (2 < size (pushes (newBuffer 3) [1; 2; 3; 4; 5]%nat))%nat ∧
  getLast (pushes (newBuffer 3) [1; 2; 3; 4; 5]%nat) 2 = [4; 5]%nat.
Proof.
  assert (H3 : (1 ≤ 3)%nat) by lia.
  assert (Hn : (2 < size (pushes (newBuffer 3) [1; 2; 3; 4; 5]%nat))%nat)
    by (vm_compute; lia).
  split; [exact H3|]. split; [exact Hn|].
  exact (proj1 (getLast_returns_most_recent 3 [1; 2; 3; 4; 5]%nat 2 H3 Hn)).
Defined.

Lemma getLast_whole_window_in_storage_order_witness :
  (1 ≤ 3)%nat ∧ (size (pushes (newBuffer 3) [1; 2; 3; 4; 5]%nat) ≤ 3)%nat ∧
  getLast (pushes (newBuffer 3) [1; 2; 3; 4; 5]%nat) 3 = [4; 5; 3]%nat ∧
  getAll (pushes (newBuffer 3) [1; 2; 3; 4; 5]%nat) = [3; 4; 5]%nat.
Proof.
  assert (H3 : (1 ≤ 3)%nat) by lia.
  assert (Hn : (size (pushes (newBuffer 3) [1; 2; 3; 4; 5]%nat) ≤ 3)%nat)
    by (vm_compute; lia).
  split; [exact H3|]. split; [exact Hn|].
  destruct (getLast_whole_window_in_storage_order 3 [1; 2; 3; 4; 5]%nat 3 H3 Hn)
    as (_ & Hbuf & _).
  split; [rewrite Hbuf; reflexivity|reflexivity].
Defined.

(** *** The statistics of the window *)

Lemma sumR_app (l k : list R) : sumR (l ++ k) = sumR l + sumR k.
Proof.
  unfold sumR. rewrite foldl_app, (foldl_Rplus_shift k). done.
Qed.

Lemma sumR_rotation (l : list R) (h : nat) :
  sumR (drop h l ++ take h l) = sumR l.
Proof.
  rewrite sumR_app, Rplus_comm, <- sumR_app. by rewrite take_drop.
Qed.

Lemma sumR_constant (l : list R) (c : R) :
  Forall (λ x, x = c) l → sumR l = INR (length l) * c.
Proof.
  induction 1 as [|x l -> _ IH].
  - cbn. unfold sumR. cbn. lra.
  - unfold sumR in *. cbn [foldl length]. rewrite foldl_Rplus_shift, IH, S_INR.
    lra.
Qed.

(** Both statistics read sums over the list only: turning the list leaves
    them unchanged. *)
Lemma statistics_rotation (l : list R) (h : nat) :
  arithmetic_mean (drop h l ++ take h l) = arithmetic_mean l ∧
  population_stddev (drop h l ++ take h l) = population_stddev l.
Proof.
  assert (Hlen : length (drop h l ++ take h l) = length l).
  { rewrite length_app, length_drop, length_take. lia. }
  assert (Hmean : arithmetic_mean (drop h l ++ take h l) = arithmetic_mean l).
  { unfold arithmetic_mean. by rewrite sumR_rotation, Hlen. }
  split; [done|]. unfold population_stddev. rewrite Hmean, Hlen.
  rewrite fmap_app, fmap_drop, fmap_take, sumR_rotation. done.
Qed.

Lemma statistics_constant (l : list R) (c : R) :
  l ≠ [] → Forall (λ x, x = c) l →
  arithmetic_mean l = c ∧ population_stddev l = 0.
Proof.
  intros Hne Hall.
  assert (Hn : INR (length l) ≠ 0) by by apply INR_pos_length.
  assert (Hmean : arithmetic_mean l = c).
  { unfold arithmetic_mean. rewrite (sumR_constant l c) by done. by field. }
  split; [done|]. unfold population_stddev. rewrite Hmean.
  rewrite (sumR_constant _ 0).
  - rewrite Rmult_0_r. unfold Rdiv. rewrite Rmult_0_l. apply sqrt_0.
  - apply Forall_fmap. eapply Forall_impl; [exact Hall|].
    intros x ->. cbn. lra.
Qed.

Section CircularBufferStatistics.
Context {T : Type}.
Variable as_number : T → option R.
Implicit Types (b : CircularBuffer T) (xs : list T).

Lemma foldl_sum_numeric (f : T → R) (l : list T) (a : R) :
  foldl (λ acc val, acc + f val) a l = foldl Rplus a (f <$> l).
Proof. revert a. induction l as [|x l IH]; intros a; cbn; [done|apply IH]. Qed.

Lemma mean_buffer b :
  buffer b ≠ [] →
  mean as_number b = Ok (arithmetic_mean (numeric as_number <$> buffer b)).
Proof.
  intros Hne. unfold mean.
  destruct (decide (length (buffer b) = 0%nat)) as [H0|_].
  { by apply length_zero_iff_nil in H0. }
  rewrite divide_ok by by apply INR_pos_length.
  unfold arithmetic_mean, sumR. by rewrite foldl_sum_numeric, length_fmap.
Qed.

Lemma standardDeviation_buffer b :
  (2 ≤ length (buffer b))%nat →
  standardDeviation as_number b
  = Ok (population_stddev (numeric as_number <$> buffer b)).
Proof.
  intros Hlen. unfold standardDeviation.
  destruct (decide (length (buffer b) < 2)%nat); [lia|].
  assert (Hne : buffer b ≠ []) by (intros E; rewrite E in Hlen; cbn in Hlen; lia).
  rewrite mean_buffer by done. cbn.
  rewrite divide_ok by by apply INR_pos_length. cbn.
  unfold population_stddev, sumR.
  rewrite foldl_sum_numeric, length_fmap, <- list_fmap_compose. done.
Qed.

(** The window of numbers a ring holds after the pushes [xs]. *)
Lemma buffer_numbers (N : nat) xs :
  (1 ≤ N)%nat →
  let b := pushes (newBuffer N) xs in
  let window := numeric as_number <$> drop (length xs - N) xs in
  length (buffer b) = length window ∧
  arithmetic_mean (numeric as_number <$> buffer b) = arithmetic_mean window ∧
  population_stddev (numeric as_number <$> buffer b) = population_stddev window.
Proof.
  intros HN b window.
  destruct (ring_inv_pushes N xs ltac:(lia))
    as (_ & h & _ & _ & Hlen & _ & Hrot).
  fold b in Hlen, Hrot. unfold window. rewrite <- Hrot.
  split.
  { rewrite length_fmap, length_app, length_drop, length_take. lia. }
  rewrite fmap_app, fmap_drop, fmap_take.
  destruct (statistics_rotation (numeric as_number <$> buffer b) h). done.
Qed.

(** X3: [mean()] and [standardDeviation()] are statistics of the window
    alone, that is of the last [N] items pushed, whatever the position of
    the cursor: the arithmetic mean and the population standard deviation
    of their numeric values.  An empty window has mean 0, a window of fewer
    than two items has deviation 0. *)
Theorem window_statistics (N : nat) xs :
  (1 ≤ N)%nat →
  let b := pushes (newBuffer N) xs in
  let window := numeric as_number <$> drop (length xs - N) xs in
  (xs = [] → mean as_number b = Ok 0) ∧
  (xs ≠ [] → mean as_number b = Ok (arithmetic_mean window)) ∧
  ((size b < 2)%nat → standardDeviation as_number b = Ok 0) ∧
  ((2 ≤ size b)%nat →
   standardDeviation as_number b = Ok (population_stddev window)).
Proof.
  intros HN b window.
  destruct (buffer_numbers N xs HN) as (Hlen & Hmean & Hstd).
  fold b window in Hlen, Hmean, Hstd.
  split; [by intros ->|]. split.
  { intros Hne. rewrite mean_buffer, Hmean; [done|].
    intros E. rewrite E in Hlen. cbn in Hlen. unfold window in Hlen.
    rewrite length_fmap, length_drop in Hlen.
    destruct xs; [done|]. cbn [length] in Hlen. lia. }
  split.
  - intros Hsmall. unfold standardDeviation. unfold size in Hsmall.
    by destruct (decide (length (buffer b) < 2)%nat).
  - intros Hbig. by rewrite standardDeviation_buffer, Hstd.
Qed.

(** X4: a window that holds one repeated number, whatever was pushed
    before it, has that number as its mean and a deviation of 0. *)
Theorem constant_window_statistics (N : nat) xs (c : R) :
  (1 ≤ N)%nat → xs ≠ [] →
  Forall (λ x, numeric as_number x = c) (drop (length xs - N) xs) →
  mean as_number (pushes (newBuffer N) xs) = Ok c ∧
  standardDeviation as_number (pushes (newBuffer N) xs) = Ok 0.
Proof.
  intros HN Hne Hall.
  destruct (buffer_numbers N xs HN) as (Hlen & Hmean & Hstd).
  set (b := pushes (newBuffer N) xs) in *.
  set (window := numeric as_number <$> drop (length xs - N) xs) in *.
  assert (Hw : window ≠ []).
  { intros E. apply (f_equal length) in E. unfold window in E.
    rewrite length_fmap, length_drop in E. cbn in E.
    destruct xs; [done|]. cbn [length] in E. lia. }
  destruct (statistics_constant window c Hw) as [Hc H0].
  { unfold window. by apply Forall_fmap. }
  split.
  - rewrite mean_buffer, Hmean, Hc; [done|].
    intros E. rewrite E in Hlen. cbn in Hlen. by destruct window.
  - destruct (decide (length (buffer b) < 2)%nat) as [Hs|Hs].
    + unfold standardDeviation. fold b.
      by destruct (decide (length (buffer b) < 2)%nat).
    + rewrite standardDeviation_buffer, Hstd, H0; [done|fold b; lia].
Qed.
End CircularBufferStatistics.

Lemma window_statistics_witness :
  (1 ≤ 2)%nat ∧
  mean Some (pushes (newBuffer 2) [7; 1; 3]) = Ok 2 ∧
  standardDeviation Some (pushes (newBuffer 2) [7; 1; 3]) = Ok 1.
Proof.
  assert (H2 : (1 ≤ 2)%nat) by lia.
  destruct (window_statistics Some 2 [7; 1; 3] H2) as (_ & Hmean & _ & Hstd).
  split; [exact H2|]. split.
  - rewrite Hmean by done. f_equal. cbn.
    unfold arithmetic_mean, sumR. cbn. lra.
  - rewrite Hstd by (vm_compute; lia). f_equal. cbn.
    unfold population_stddev, arithmetic_mean, sumR. cbn.
    match goal with |- sqrt ?a = _ => replace a with 1 by lra end.
    apply sqrt_1.
Defined.

Lemma constant_window_statistics_witness :
  (1 ≤ 2)%nat ∧
  mean Some (pushes (newBuffer 2) [7; 5; 5]) = Ok 5 ∧
  standardDeviation Some (pushes (newBuffer 2) [7; 5; 5]) = Ok 0.
Proof.
  assert (H2 : (1 ≤ 2)%nat) by lia.
  split; [exact H2|].
  apply (constant_window_statistics Some 2 [7; 5; 5] 5 H2); [done|].
  cbn. by repeat constructor.
Defined.

(** *** Runs of the engine *)

Section EngineRuns.
Variable toFixed : R → nat → string.
Variable show : R → string.

Lemma maxSize_push {T : Type} (b : CircularBuffer T) (x : T) :
  maxSize (push b x) = maxSize b.
Proof. unfold push. by repeat case_match. Qed.

Lemma maxSize_pushes {T : Type} (b : CircularBuffer T) (xs : list T) :
  maxSize (pushes b xs) = maxSize b.
Proof.
  induction xs as [|x xs IH] using rev_ind; [done|].
  unfold pushes in *. by rewrite foldl_snoc, maxSize_push.
Qed.

(** A run is the run of its first ticks followed by the run of the rest. *)
Lemma processTicks_app e ticks1 ticks2 :
  processTicks toFixed show e (ticks1 ++ ticks2)
  = '(outs1, e1) ← processTicks toFixed show e ticks1;
    '(outs2, e2) ← processTicks toFixed show e1 ticks2;
    mret (outs1 ++ outs2, e2).
Proof.
  revert e. induction ticks1 as [|[env tick] ticks1 IH]; intros e.
  - cbn. by destruct (processTicks _ _ e ticks2) as [[]|].
  - cbn. destruct (processTick _ _ e env tick) as [[out e1]|]; [|done].
    cbn. rewrite IH.
    destruct (processTicks _ _ e1 ticks1) as [[outs1 e2]|]; [|done].
    cbn. by destruct (processTicks _ _ e2 ticks2) as [[]|].
Qed.

(** The windows after a run: every tick pushed one depth and one price. *)
Lemma processTicks_windows e ticks outs e' :
  processTicks toFixed show e ticks = Ok (outs, e') →
  length outs = length ticks ∧
  liquidityBuffer e'
  = pushes (liquidityBuffer e) ((λ et, Tick.total_depth et.2) <$> ticks) ∧
  priceBuffer e' = pushes (priceBuffer e) ((λ et, Tick.price et.2) <$> ticks) ∧
  volBuffer e' = volBuffer e.
Proof.
  revert e outs e'. induction ticks as [|[env tick] ticks IH]; intros e outs e'.
  - cbn. by intros [= <- <-].
  - cbn. destruct (processTick _ _ e env tick) as [[out e1]|] eqn:Htick; [|done].
    cbn. destruct (processTicks _ _ e1 ticks) as [[outs1 e2]|] eqn:Hrest;
      [|done].
    cbn. intros [= <- <-].
    destruct (processTick_windows toFixed show e env tick out e1 Htick)
      as (Hl & Hp & Hv).
    destruct (IH e1 outs1 e2 Hrest) as (Hlen & Hl' & Hp' & Hv').
    cbn. rewrite Hlen, Hl', Hp', Hv', Hl, Hp, Hv. done.
Qed.

(** The tick behind the output at position [i] of a run, and the engine it
    met. *)
Lemma processTicks_lookup e ticks outs e' i out :
  processTicks toFixed show e ticks = Ok (outs, e') →
  outs !! i = Some out →
  ∃ env tick ei ei',
    ticks !! i = Some (env, tick) ∧
    processTicks toFixed show e (take i ticks) = Ok (take i outs, ei) ∧
    processTick toFixed show ei env tick = Ok (out, ei').
Proof.
  revert e outs e' i. induction ticks as [|[env tick] ticks IH];
    intros e outs e' i.
  - cbn. by intros [= <- <-].
  - cbn. destruct (processTick _ _ e env tick) as [[out1 e1]|] eqn:Htick;
      [|done].
    cbn. destruct (processTicks _ _ e1 ticks) as [[outs1 e2]|] eqn:Hrest;
      [|done].
    cbn. intros [= <- <-]. destruct i as [|i]; cbn.
    + intros [= <-]. by exists env, tick, e, e1.
    + intros Hout.
      destruct (IH e1 outs1 e2 i Hrest Hout)
        as (env' & tick' & ei & ei' & Hlk & Hpre & Hstep).
      exists env', tick', ei, ei'. split; [done|]. split; [|done].
      by rewrite Htick; cbn; rewrite Hpre.
Qed.

(** X5: [reset] keeps the capacities of the three windows and nothing else
    of the state: after any run of ticks it leaves the engine the
    constructor builds, so a reset engine answers every later run as a new
    engine does. *)
Theorem reset_restores_fresh_engine e0 ticks :
  (∃ outs e', processTicks toFixed show e0 ticks = Ok (outs, e') ∧
              reset e' = reset e0) ∧
  reset newEngine = newEngine ∧
  (∃ outs e', processTicks toFixed show newEngine ticks = Ok (outs, e') ∧
              reset e' = newEngine ∧
              ∀ later, processTicks toFixed show (reset e') later
                       = processTicks toFixed show newEngine later).
Proof.
  assert (Hrun : ∀ e, ∃ outs e',
            processTicks toFixed show e ticks = Ok (outs, e') ∧
            reset e' = reset e).
  { intros e.
    destruct (processTicks_total toFixed show e ticks) as (outs & e' & Hrun).
    exists outs, e'. split; [done|].
    destruct (processTicks_windows e ticks outs e' Hrun) as (_ & Hl & Hp & Hv).
    unfold reset, clear. by rewrite Hl, Hp, Hv, !maxSize_pushes. }
  split; [apply Hrun|]. split; [done|].
  destruct (Hrun newEngine) as (outs & e' & Hok & Hreset).
  exists outs, e'. split; [done|]. split; [done|].
  intros later. by rewrite Hreset.
Qed.
End EngineRuns.

(** *** The thresholds of the signal evaluators *)

Lemma clamp_range (x : R) : 0 <= clamp x 0 100 <= 100.
Proof.
  unfold clamp. split; [|apply Rmin_l].
  apply Rmin_glb; [lra|apply Rmax_l].
Qed.

Lemma clamp_inside (x : R) : 0 <= x <= 100 → clamp x 0 100 = x.
Proof.
  intros [H0 H100]. unfold clamp.
  rewrite Rmax_right by done. by rewrite Rmin_right.
Qed.

Lemma clamp_below (x : R) : x <= 0 → clamp x 0 100 = 0.
Proof.
  intros H0. unfold clamp. rewrite Rmax_left by done.
  rewrite Rmin_right; [done|lra].
Qed.

Lemma clamp_above (x : R) : 100 <= x → clamp x 0 100 = 100.
Proof.
  intros H100. unfold clamp. rewrite Rmax_right by lra.
  by rewrite Rmin_left.
Qed.

Lemma clamp_gt (x c : R) : 0 <= c < 100 → (clamp x 0 100 > c ↔ x > c).
Proof.
  intros Hc. unfold clamp, Rmin, Rmax.
  destruct (Rle_dec 0 x); destruct (Rle_dec 100 _); lra.
Qed.

Lemma population_stddev_nonneg (l : list R) : 0 <= population_stddev l.
Proof. apply sqrt_pos. Qed.

Section EvaluatorThresholds.
Variable toFixed : R → nat → string.
Variable show : R → string.

(** The liquidity signal, from the baseline that [mean()] returned. *)
Lemma processLiquidity_fields e tick m :
  mean Some (push (liquidityBuffer e) (Tick.total_depth tick)) = Ok m →
  ∃ dc risk sig,
    liquidity_depthChange (Tick.total_depth tick) m = Ok dc ∧
    liquidity_risk dc = Ok risk ∧
    processLiquidity toFixed e tick
    = Ok (sig, AnalyticsEngine.set_liquidityBuffer
                 (push (liquidityBuffer e) (Tick.total_depth tick)) e) ∧
    SignalOutput.value sig = js_round risk ∧
    SignalOutput.severity sig = getSeverity risk ∧
    SignalOutput.triggered sig = bool_decide (risk > 60) ∧
    SignalOutput.confidence sig
    = determineConfidence
        (INR (size (push (liquidityBuffer e) (Tick.total_depth tick)))) 60 20.
Proof.
  intros Hm. unfold processLiquidity. rewrite Hm.
  destruct (liquidity_depthChange_total (Tick.total_depth tick) m) as [dc Hdc].
  destruct (liquidity_risk_range dc) as (r & Hr & _).
  cbn. rewrite Hdc. cbn. rewrite Hr. cbn.
  exists dc, r. eexists.
  split; [reflexivity|]. split; [exact Hr|]. split; [reflexivity|]. done.
Qed.

(** The risk of the liquidity evaluator over a positive baseline: 250 times
    the relative shortfall of the depth, clamped. *)
Lemma liquidity_risk_shortfall (d m : R) :
  0 < m →
  ∃ dc, liquidity_depthChange d m = Ok dc ∧
        liquidity_risk dc = Ok (clamp ((m - d) / m * 250) 0 100).
Proof.
  intros Hm. unfold liquidity_depthChange.
  destruct (decide (m = 0)); [lra|].
  rewrite divide_ok by done. cbn. eexists. split; [done|].
  assert (Hq : (m - d) / m = - ((d - m) / m)) by (field; lra).
  unfold liquidity_risk.
  destruct (decide ((d - m) / m * 100 >= 0)) as [Hup|Hdown].
  - cbn. rewrite clamp_below; [done|]. rewrite Hq. lra.
  - rewrite divide_ok by lra. cbn. f_equal. unfold clamp.
    rewrite Rmax_right by (rewrite Hq; lra). f_equal. rewrite Hq. lra.
Qed.

(** X6: over a positive baseline (the mean of the window, the current depth
    included) the liquidity risk is 250 times the relative shortfall of the
    depth, clamped to [0, 100]: it is 0 at or above the baseline, 100 from a
    shortfall of 40 percent on, and the signal is triggered exactly when
    the depth is below 76 percent of the baseline. *)
Theorem liquidity_trigger_threshold e tick m :
  mean Some (push (liquidityBuffer e) (Tick.total_depth tick)) = Ok m →
  0 < m →
  ∃ sig e',
    processLiquidity toFixed e tick = Ok (sig, e') ∧
    SignalOutput.value sig
    = js_round (clamp ((m - Tick.total_depth tick) / m * 250) 0 100) ∧
    SignalOutput.triggered sig
    = bool_decide (Tick.total_depth tick < 0.76 * m) ∧
    (m <= Tick.total_depth tick → SignalOutput.value sig = 0) ∧
    (Tick.total_depth tick <= 0.6 * m → SignalOutput.value sig = 100).
Proof.
  intros Hmean Hm.
  destruct (processLiquidity_fields e tick m Hmean)
    as (dc & risk & sig & Hdc & Hrisk & Hsig & Hval & _ & Htrig & _).
  destruct (liquidity_risk_shortfall (Tick.total_depth tick) m Hm)
    as (dc' & Hdc' & Hrisk').
  rewrite Hdc in Hdc'. injection Hdc' as <-.
  rewrite Hrisk in Hrisk'. injection Hrisk' as ->.
  set (d := Tick.total_depth tick) in *.
  assert (Hq : (m - d) / m * m = m - d) by (field; lra).
  set (q := (m - d) / m) in *.
  eexists sig, _. split; [exact Hsig|]. split; [done|]. split; [|split].
  - rewrite Htrig. apply bool_decide_ext.
    rewrite clamp_gt by lra. split; intros; nra.
  - intros Hd. rewrite Hval, clamp_below by nra. apply js_round_0.
  - intros Hd. rewrite Hval, clamp_above by nra.
    apply (js_round_IZR 100 100). lra.
Qed.

(** The flow signal of a tick that traded. *)
Lemma processFlow_fields tick :
  let buy := Trades.buy_volume (Tick.trades tick) in
  let sell := Trades.sell_volume (Tick.trades tick) in
  buy + sell ≠ 0 →
  ∃ sig,
    processFlow toFixed tick = Ok sig ∧
    let risk := Rmax 0 ((sell / (buy + sell) - 0.5) * 200) in
    SignalOutput.value sig = js_round risk ∧
    SignalOutput.severity sig = getSeverity risk ∧
    SignalOutput.triggered sig = bool_decide (risk > 65) ∧
    SignalOutput.confidence sig = determineConfidence (buy + sell) 2.0 0.5.
Proof.
  intros buy sell Hvol. unfold processFlow. fold buy sell.
  destruct (decide (buy + sell = 0)); [done|].
  rewrite divide_ok by done. cbn.
  rewrite divide_ok by (apply js_or_nonzero; lra). cbn.
  eexists. split; [reflexivity|]. done.
Qed.

(** X7: for a tick with non-negative buy and sell volumes, not both zero,
    the flow risk is [(sell share - 0.5) x 200] floored at 0: it lies in
    [0, 100], it is 0 when sells do not exceed buys, and the signal is
    triggered exactly when sells are more than 82.5 percent of the
    volume. *)
Theorem flow_trigger_threshold tick :
  let buy := Trades.buy_volume (Tick.trades tick) in
  let sell := Trades.sell_volume (Tick.trades tick) in
  0 <= buy → 0 <= sell → 0 < buy + sell →
  ∃ sig,
    processFlow toFixed tick = Ok sig ∧
    0 <= SignalOutput.value sig <= 100 ∧
    SignalOutput.triggered sig = bool_decide (sell > 0.825 * (buy + sell)) ∧
    (sell <= buy →
     SignalOutput.value sig = 0 ∧ SignalOutput.triggered sig = false) ∧
    (buy = 0 → SignalOutput.value sig = 100).
Proof.
  intros buy sell Hbuy Hsell Hvol.
  destruct (processFlow_fields tick) as (sig & Hsig & Hval & _ & Htrig & _);
    [fold buy sell; lra|].
  fold buy sell in Hval, Htrig.
  assert (Hq : sell / (buy + sell) * (buy + sell) = sell) by (field; lra).
  set (q := sell / (buy + sell)) in *.
  assert (Hq01 : 0 <= q <= 1) by (split; nra).
  exists sig. split; [exact Hsig|]. split; [|split; [|split]].
  - rewrite Hval. split.
    + apply (js_round_ge _ 0). apply Rmax_l.
    + apply (js_round_le _ 100). apply Rmax_lub; lra.
  - rewrite Htrig. apply bool_decide_ext. unfold Rmax.
    destruct (Rle_dec 0 _); split; intros; nra.
  - intros Hle. assert (Hhalf : q <= 0.5) by nra.
    rewrite Hval, Htrig, Rmax_left by lra. split; [apply js_round_0|].
    apply bool_decide_eq_false. lra.
  - intros H0. assert (q = 1) as Hone by nra.
    rewrite Hval, Hone, Rmax_right by lra.
    apply (js_round_IZR _ 100). lra.
Qed.

(** X8: the forced-selling risk reads the large sell trades only, 20 points
    per unit of their total quantity, capped at 100 from 5 units on; the
    signal is triggered exactly when that total exceeds 2.25, and a tick
    whose large trades are all buys scores 0. *)
Theorem forced_selling_trigger_threshold tick :
  ∃ sig,
    processForcedSelling toFixed tick = Ok sig ∧
    SignalOutput.triggered sig = bool_decide (totalLargeVol tick > 2.25) ∧
    (5 <= totalLargeVol tick → SignalOutput.value sig = 100) ∧
    (totalLargeVol tick <= 5 →
     SignalOutput.value sig = js_round (20 * totalLargeVol tick)) ∧
    (Forall (λ t, Trade.side t = buy) (Trades.large_trades (Tick.trades tick)) →
     SignalOutput.value sig = 0 ∧ SignalOutput.triggered sig = false).
Proof.
  destruct (processForcedSelling_ok toFixed tick)
    as (sig & Hsig & _ & Hval & Htrig).
  exists sig. split; [exact Hsig|]. split; [|split; [|split]].
  - rewrite Htrig. apply bool_decide_ext. unfold Rmin.
    destruct (Rle_dec 100 _); split; intros; lra.
  - intros H5. rewrite Hval, Rmin_left by lra.
    apply (js_round_IZR _ 100). lra.
  - intros H5. rewrite Hval, Rmin_right by lra. f_equal. lra.
  - intros Hbuys.
    assert (totalLargeVol tick = 0) as H0.
    { unfold totalLargeVol, largeSells.
      induction Hbuys as [|t l Ht _ IH]; [done|].
      rewrite filter_cons. destruct (decide (Trade.side t = sell)) as [E|_].
      - rewrite Ht in E. discriminate E.
      - exact IH. }
    rewrite Hval, Htrig, H0. split.
    + rewrite Rmin_right by lra.
      replace (0 / 5 * 100) with 0 by lra. apply js_round_0.
    + apply bool_decide_eq_false. rewrite Rmin_right; lra.
Qed.
End EvaluatorThresholds.

Section VolatilityThresholds.
Variable toFixed : R → nat → string.

(** X9: with at least 20 prices in the window, the volatility signal is
    triggered exactly when the deviation of the last 10 prices exceeds 2.1
    times the deviation of the whole window (where that is not zero); the
    risk is 0 whenever the short deviation does not exceed the long one,
    100 from three times the long one on, and a window of one repeated
    price scores 0. *)
Theorem volatility_trigger_threshold e tick :
  let prices := getAll (push (priceBuffer e) (Tick.price tick)) in
  let short := population_stddev (slice_last 10 prices) in
  let long := population_stddev prices in
  (20 ≤ length prices)%nat →
  ∃ sig e',
    processVolatility toFixed e tick = Ok (sig, e') ∧
    (long ≠ 0 → SignalOutput.triggered sig = bool_decide (short > 2.1 * long)) ∧
    (short <= long →
     SignalOutput.value sig = 0 ∧ SignalOutput.triggered sig = false) ∧
    (long ≠ 0 → 3 * long <= short → SignalOutput.value sig = 100) ∧
    (∀ c, Forall (λ p, p = c) prices →
          SignalOutput.value sig = 0 ∧ SignalOutput.triggered sig = false).
Proof.
  intros prices short long Hlen.
  destruct (processVolatility_full toFixed e tick Hlen)
    as (sig & Hsig & Hval & Htrig).
  fold prices in Hval, Htrig. unfold volatility_risk_guarded in Hval, Htrig.
  cbv zeta in Hval, Htrig. fold short long in Hval, Htrig.
  pose proof (population_stddev_nonneg prices) as Hlong. fold long in Hlong.
  pose proof (population_stddev_nonneg (slice_last 10 prices)) as Hshort.
  fold short in Hshort.
  assert (Hcalm : short <= long →
            SignalOutput.value sig = 0 ∧ SignalOutput.triggered sig = false).
  { intros Hle. rewrite Hval, Htrig.
    assert (clamp ((short / (if decide (long = 0) then 1 else long) - 1) * 50)
              0 100 = 0) as ->.
    { apply clamp_below. destruct (decide (long = 0)) as [H0|Hn0].
      - replace short with 0 by lra. lra.
      - assert (Hq : short / long * long = short) by (field; lra).
        set (q := short / long) in *. nra. }
    split; [apply js_round_0|]. apply bool_decide_eq_false. lra. }
  eexists sig, _. split; [exact Hsig|]. split; [|split; [|split]].
  - intros Hn0. rewrite Htrig. destruct (decide (long = 0)); [done|].
    assert (Hq : short / long * long = short) by (field; lra).
    set (q := short / long) in *.
    apply bool_decide_ext. rewrite clamp_gt by lra. split; intros; nra.
  - exact Hcalm.
  - intros Hn0 Hbig. rewrite Hval. destruct (decide (long = 0)); [done|].
    assert (Hq : short / long * long = short) by (field; lra).
    set (q := short / long) in *.
    rewrite clamp_above by nra. apply (js_round_IZR _ 100). lra.
  - intros c Hall. apply Hcalm.
    assert (prices ≠ []) as Hne by (intros E; rewrite E in Hlen; cbn in Hlen; lia).
    destruct (statistics_constant prices c Hne Hall) as [_ Hl].
    assert (slice_last 10 prices ≠ []) as Hne'.
    { intros E. pose proof (slice_last_length 10 prices ltac:(lia)) as Hl'.
      by rewrite E in Hl'. }
    destruct (statistics_constant (slice_last 10 prices) c Hne') as [_ Hs].
    { unfold slice_last. by apply Forall_drop. }
    unfold short, long. rewrite Hl, Hs. lra.
Qed.
End VolatilityThresholds.

Lemma liquidity_trigger_threshold_witness :
  ∃ sig e',
    processLiquidity plain_toFixed newEngine (tick_of 100 0 (trades_of 0 0 []))
    = Ok (sig, e') ∧
    SignalOutput.value sig = 0 ∧ SignalOutput.triggered sig = false.
Proof.
  destruct (liquidity_trigger_threshold plain_toFixed newEngine
              (tick_of 100 0 (trades_of 0 0 [])) 100)
    as (sig & e' & Hsig & _ & Htrig & Hzero & _).
  - exact (proj1 (first_sample_neutral plain_toFixed newEngine
                    (tick_of 100 0 (trades_of 0 0 [])) eq_refl eq_refl)).
  - lra.
  - exists sig, e'. split; [exact Hsig|]. split.
    + apply Hzero. cbn. lra.
    + rewrite Htrig. apply bool_decide_eq_false. cbn. lra.
Defined.

Lemma flow_trigger_threshold_witness :
  ∃ sig,
    processFlow plain_toFixed (tick_of 0 0 (trades_of 1 9 [])) = Ok sig ∧
    SignalOutput.triggered sig = true.
Proof.
  destruct (flow_trigger_threshold plain_toFixed
              (tick_of 0 0 (trades_of 1 9 [])))
    as (sig & Hsig & _ & Htrig & _); [cbn; lra..|].
  exists sig. split; [exact Hsig|].
  rewrite Htrig. apply bool_decide_eq_true. cbn. lra.
Defined.

Lemma volatility_trigger_threshold_witness :
  (20 ≤ length choppy_window)%nat ∧
  ∃ sig e',
    processVolatility plain_toFixed (engine_with_prices prices19) choppy_tick
    = Ok (sig, e') ∧
    SignalOutput.triggered sig = false.
Proof.
  assert (Hlen : (20 ≤ length choppy_window)%nat).
  { rewrite choppy_window_prices. cbn. lia. }
  split; [exact Hlen|].
  destruct (volatility_trigger_threshold plain_toFixed
              (engine_with_prices prices19) choppy_tick Hlen)
    as (sig & e' & Hsig & Htrig & _).
  exists sig, e'. split; [exact Hsig|].
  fold choppy_window in Htrig.
  rewrite Htrig, choppy_window_long, choppy_window_short by
    (rewrite choppy_window_long; lra).
  apply bool_decide_eq_false. lra.
Defined.
